(** * music_new: the resource handler layer of [main.py] over the tables of
    [models/models.py]

    The development embeds the FastAPI handlers of [main.py] as functions of
    a small session monad over a relational store whose tables, columns,
    defaults and foreign keys are those declared in [models/models.py].
    Python dicts, pydantic model instances and result rows are finite maps from
    field names to values. *)

From stdpp Require Import base option list gmap strings fin_maps.
From Stdlib Require Import ZArith Lia.

Open Scope string_scope.
Open Scope Z_scope.

(** ** Values *)

(** The Python / JSON / SQL values that travel through the handlers.  [VNone]
    is Python's [None], JSON's [null] and SQL's [NULL]. *)
#[warnings="-register-all"]
Inductive value : Type :=
| VNone
| VBool (b : bool)
| VInt (n : Z)
| VStr (s : string)
| VTime (t : Z)
| VDict (d : list (string * value)).

(** [v is None] *)
Definition is_None (v : value) : bool :=
  match v with VNone => true | _ => false end.

(** A dict with string keys: a pydantic instance's [.dict()], the mapping given
    to [.values(...)], a result row. *)
Abbreviation obj := (gmap string value).

(** ** Pydantic models of [main.py] *)

Inductive ty : Type := TStr | TInt | TBool | TDateTime | TDict.

(** A field: its name, its type, whether [None] is allowed ([Optional[...]],
    or a default of [None]), and its default ([None] here: required). *)
Record field : Type := Field {
  f_name : string;
  f_type : ty;
  f_optional : bool;
  f_default : option value
}.

Abbreviation model := (list field).

Definition RoleCreate : model :=
  [ Field "name" TStr false None;
    Field "permissions" TDict false (Some (VDict [])) ].

(** The class [UserCreate] of line 58; it rebinds the name imported from
    [auth.schemas] before [create_user] is defined. *)
Definition UserCreate : model :=
  [ Field "email" TStr false None;
    Field "username" TStr false None;
    Field "role_id" TInt false None;
    Field "hashed_password" TStr false None;
    Field "is_active" TBool false (Some (VBool true));
    Field "is_superuser" TBool false (Some (VBool false));
    Field "is_verified" TBool false (Some (VBool false)) ].

Definition ArtistCreate : model :=
  [ Field "name" TStr false None;
    Field "genre" TStr true (Some VNone);
    Field "country" TStr true (Some VNone) ].

Definition AlbumCreate : model :=
  [ Field "title" TStr false None;
    Field "release_date" TDateTime false None;
    Field "artist_id" TInt false None ].

Definition SongCreate : model :=
  [ Field "title" TStr false None;
    Field "duration" TInt false None;
    Field "album_id" TInt false None;
    Field "artist_id" TInt false None ].

Definition Role : model :=
  [ Field "id" TInt false None;
    Field "name" TStr false None;
    Field "permissions" TDict false None ].

Definition User : model :=
  [ Field "id" TInt false None;
    Field "email" TStr false None;
    Field "username" TStr false None;
    Field "role_id" TInt false None;
    Field "registered_at" TDateTime false None;
    Field "is_active" TBool false None;
    Field "is_superuser" TBool false None;
    Field "is_verified" TBool false None ].

Definition Artist : model :=
  [ Field "id" TInt false None;
    Field "name" TStr false None;
    Field "genre" TStr true (Some VNone);
    Field "country" TStr true (Some VNone) ].

Definition Album : model :=
  [ Field "id" TInt false None;
    Field "title" TStr false None;
    Field "release_date" TDateTime false None;
    Field "artist_id" TInt false None ].

Definition Song : model :=
  [ Field "id" TInt false None;
    Field "title" TStr false None;
    Field "duration" TInt false None;
    Field "album_id" TInt false None;
    Field "artist_id" TInt false None ].

Definition RoleUpdate : model :=
  [ Field "name" TStr true (Some VNone);
    Field "permissions" TDict true (Some VNone) ].

Definition UserUpdate : model :=
  [ Field "email" TStr true (Some VNone);
    Field "username" TStr true (Some VNone);
    Field "role_id" TInt true (Some VNone);
    Field "hashed_password" TStr true (Some VNone);
    Field "is_active" TBool true (Some VNone);
    Field "is_superuser" TBool true (Some VNone);
    Field "is_verified" TBool true (Some VNone) ].

Definition ArtistUpdate : model :=
  [ Field "name" TStr true (Some VNone);
    Field "genre" TStr true (Some VNone);
    Field "country" TStr true (Some VNone) ].

Definition has_type (t : ty) (v : value) : bool :=
  match t, v with
  | TStr, VStr _ | TInt, VInt _ | TBool, VBool _
  | TDateTime, VTime _ | TDict, VDict _ => true
  | _, _ => false
  end.

Definition accepts (f : field) (v : value) : bool :=
  has_type (f_type f) v || (f_optional f && is_None v).

Definition field_names (m : model) : list string := f_name <$> m.

(** [o] is an instance of the model [m]: it has exactly the fields of [m],
    each holding a value its annotation accepts. *)
Definition is_instance (m : model) (o : obj) : bool :=
  bool_decide (dom o = list_to_set (field_names m))
  && forallb (λ f, from_option (accepts f) false (o !! f_name f)) m.

(** Building the instance from a JSON body: a supplied value is taken when the
    annotation accepts it, a missing field takes its default, a missing
    required field or a refused value is a validation error.  Keys of the body
    that the model does not declare are ignored.  (Pydantic's coercions
    between scalar types are not part of the model: a value of another type
    is refused.) *)
Fixpoint parse_obj (m : model) (body : obj) : option obj :=
  match m with
  | [] => Some ∅
  | f :: m' =>
      v ← match body !! f_name f with
          | Some v => if accepts f v then Some v else None
          | None => f_default f
          end;
      o ← parse_obj m' body;
      Some (<[f_name f := v]> o)
  end.

(** ** Exceptions and responses *)

Inductive exn : Type :=
| HTTPException (status_code : Z) (detail : string)
| AttributeError (attr : string)
| IntegrityError
| DataError
| CompileError
| RequestValidationError
| ResponseValidationError.

(** ** The store: tables of [models/models.py] *)

Inductive tbl : Type := roles | users | artists | albums | songs.

#[global] Instance tbl_eq_dec : EqDecision tbl.
Proof. solve_decision. Defined.

Inductive cdefault : Type := NoDefault | Const (v : value) | UtcNow.

Record column : Type := Column {
  c_name : string;
  c_type : ty;
  c_primary_key : bool;
  c_nullable : bool;
  c_default : cdefault;
  c_fk : option tbl
}.

Definition columns (t : tbl) : list column :=
  match t with
  | roles =>
      [ Column "id" TInt true false NoDefault None;
        Column "name" TStr false false NoDefault None;
        Column "permissions" TDict false true NoDefault None ]
  | users =>
      [ Column "id" TInt true false NoDefault None;
        Column "email" TStr false false NoDefault None;
        Column "username" TStr false false NoDefault None;
        Column "registered_at" TDateTime false true UtcNow None;
        Column "role_id" TInt false true NoDefault (Some roles);
        Column "hashed_password" TStr false false NoDefault None;
        Column "is_active" TBool false false (Const (VBool true)) None;
        Column "is_superuser" TBool false false (Const (VBool false)) None;
        Column "is_verified" TBool false false (Const (VBool false)) None ]
  | artists =>
      [ Column "id" TInt true false NoDefault None;
        Column "name" TStr false false NoDefault None;
        Column "genre" TStr false true NoDefault None;
        Column "country" TStr false true NoDefault None ]
  | albums =>
      [ Column "id" TInt true false NoDefault None;
        Column "title" TStr false false NoDefault None;
        Column "release_date" TDateTime false true NoDefault None;
        Column "artist_id" TInt false true NoDefault (Some artists) ]
  | songs =>
      [ Column "id" TInt true false NoDefault None;
        Column "title" TStr false false NoDefault None;
        Column "duration" TInt false false NoDefault None;
        Column "album_id" TInt false true NoDefault (Some albums);
        Column "artist_id" TInt false true NoDefault (Some artists) ]
  end.

Definition column_names (t : tbl) : list string := c_name <$> columns t.

(** A table: its rows in the order a sequential scan returns them, and the
    last value drawn from the sequence behind its integer primary key. *)
Record table : Type := Table {
  t_rows : list obj;
  t_seq : Z
}.

Record DB : Type := Store {
  d_roles : table;
  d_users : table;
  d_artists : table;
  d_albums : table;
  d_songs : table
}.

Definition table_of (t : tbl) (db : DB) : table :=
  match t with
  | roles => d_roles db
  | users => d_users db
  | artists => d_artists db
  | albums => d_albums db
  | songs => d_songs db
  end.

Definition with_table (t : tbl) (x : table) (db : DB) : DB :=
  match t with
  | roles => Store x (d_users db) (d_artists db) (d_albums db) (d_songs db)
  | users => Store (d_roles db) x (d_artists db) (d_albums db) (d_songs db)
  | artists => Store (d_roles db) (d_users db) x (d_albums db) (d_songs db)
  | albums => Store (d_roles db) (d_users db) (d_artists db) x (d_songs db)
  | songs => Store (d_roles db) (d_users db) (d_artists db) (d_albums db) x
  end.

Definition all_tables : list tbl := [roles; users; artists; albums; songs].

(** [t.c.<col> == n] on a row *)
Definition col_is (col : string) (n : Z) (r : obj) : bool :=
  match r !! col with
  | Some (VInt m) => Z.eqb m n
  | _ => false
  end.

Definition has_id (n : Z) (r : obj) : bool := col_is "id" n r.

(** The columns named in a [.returning(...)] clause. *)
Definition project (cols : list string) (r : obj) : obj :=
  filter (λ kv, kv.1 ∈ cols) r.

Definition eval_default (now : Z) (d : cdefault) : value :=
  match d with
  | NoDefault => VNone
  | Const v => v
  | UtcNow => VTime now
  end.

(** A foreign key holds [NULL] or the id of a row of the table it names. *)
Definition fk_ok (db : DB) (c : column) (v : value) : bool :=
  match c_fk c with
  | None => true
  | Some t' =>
      match v with
      | VNone => true
      | VInt n => existsb (has_id n) (t_rows (table_of t' db))
      | _ => false
      end
  end.

Definition not_null_ok (c : column) (v : value) : bool :=
  c_nullable c || negb (is_None v).

Definition column_ok (db : DB) (c : column) (v : value) : bool :=
  not_null_ok c v && fk_ok db c v.

(** The constraints of table [t] on the columns that [vals] assigns. *)
Definition constraints_ok (db : DB) (t : tbl) (vals : obj) : bool :=
  forallb (λ c, from_option (column_ok db c) true (vals !! c_name c))
          (columns t).

(** Every key of [vals] names a column of [t]. *)
Definition keys_are_columns (t : tbl) (vals : obj) : bool :=
  bool_decide (map_Forall (λ k _, k ∈ column_names t) vals).

(** Some row of another table points at row [n] of [t]. *)
Definition referenced (db : DB) (t : tbl) (n : Z) : bool :=
  existsb (λ t',
    existsb (λ c,
      bool_decide (c_fk c = Some t)
      && existsb (col_is (c_name c) n) (t_rows (table_of t' db)))
      (columns t')) all_tables.

(** ** SQL statements

    A statement maps the store to an exception, or to its result and the
    store it leaves. *)

Definition stmt (A : Type) : Type := DB → exn + (A * DB).

(** The row that [insert(t).values(vals)] builds: the primary key from the
    sequence, a given value where [vals] has one, the column default
    otherwise. *)
Definition new_row (now : Z) (t : tbl) (id : Z) (vals : obj) : obj :=
  list_to_map
    ((λ c, (c_name c,
            if c_primary_key c then VInt id
            else default (eval_default now (c_default c)) (vals !! c_name c)))
       <$> columns t).

(** [insert(t).values(vals).returning(ret)] followed by [.fetchone()].  The
    statement does not compile when [vals] names something that is no column;
    the store refuses the row when its key is taken or when it breaks a
    [NOT NULL] or a foreign key of the table. *)
Definition sql_insert (now : Z) (t : tbl) (vals : obj) (ret : list string)
  : stmt obj :=
  λ db,
    if negb (keys_are_columns t vals) then inl CompileError
    else
      let tb := table_of t db in
      let id := t_seq tb + 1 in
      let r := new_row now t id vals in
      if negb (existsb (has_id id) (t_rows tb)) && constraints_ok db t r
      then inr (project ret r, with_table t (Table (t_rows tb ++ [r]) id) db)
      else inl IntegrityError.

(** What an [update ... where id == i] with the assignments [vals] makes of a
    row: the assigned columns take their new values, the others stay. *)
Definition merge_at (i : Z) (vals : obj) (r : obj) : obj :=
  if has_id i r then vals ∪ r else r.

(** [update(t).where(t.c.id == id).values(vals).returning(ret)] followed by
    [.fetchone()]: the first updated row, or [None] when no row matched.  The
    constraints are checked on the columns that are assigned; a [vals] that
    assigns nothing leaves the matched row as it is and returns it. *)
Definition sql_update (t : tbl) (id : Z) (vals : obj) (ret : list string)
  : stmt (option obj) :=
  λ db,
    if negb (keys_are_columns t vals) then inl CompileError
    else
      let tb := table_of t db in
      match filter (λ r, has_id id r = true) (t_rows tb) with
      | [] => inr (None, db)
      | r :: _ =>
          if constraints_ok db t vals
          then
            inr (Some (project ret (vals ∪ r)),
                 with_table t
                   (Table (merge_at id vals <$> t_rows tb) (t_seq tb)) db)
          else inl IntegrityError
      end.

(** [delete(t).where(t.c.id == id)]; the result is [rowcount].  A row that a
    foreign key of another table points at cannot be removed: no [ondelete]
    is declared. *)
Definition sql_delete (t : tbl) (id : Z) : stmt Z :=
  λ db,
    let tb := table_of t db in
    let hit := filter (λ r, has_id id r = true) (t_rows tb) in
    match hit with
    | [] => inr (0, db)
    | _ :: _ =>
        if referenced db t id then inl IntegrityError
        else
          inr (Z.of_nat (length hit),
               with_table t
                 (Table (filter (λ r, has_id id r = false) (t_rows tb))
                        (t_seq tb)) db)
    end.

(** [select(t).where(t.c.id == id)] followed by [.fetchone()] *)
Definition sql_select_by_id (t : tbl) (id : Z) : stmt (option obj) :=
  λ db, inr (head (filter (λ r, has_id id r = true) (t_rows (table_of t db))), db).

(** [select(t)] followed by [.fetchall()]: no [ORDER BY], the rows come in
    scan order. *)
Definition sql_select (t : tbl) : stmt (list obj) :=
  λ db, inr (t_rows (table_of t db), db).

(** [select(t).limit(limit).offset(offset)] followed by [.fetchall()].  The
    store ([postgresql://] in [DATABASE_URL]) refuses a negative [LIMIT] or
    [OFFSET]. *)
Definition sql_select_page (t : tbl) (limit offset : Z) : stmt (list obj) :=
  λ db,
    if (limit <? 0) || (offset <? 0) then inl DataError
    else
      inr (take (Z.to_nat limit) (drop (Z.to_nat offset) (t_rows (table_of t db))),
           db).

(** ** The session

    [get_db] opens a session per request and closes it on every exit path.
    What a handler executed and did not commit is lost when the session
    closes. *)

Record Session : Type := Sess {
  committed : DB;
  pending : DB
}.

Definition M (A : Type) : Type := Session → (exn + A) * Session.

Definition raise {A} (e : exn) : M A := λ s, (inl e, s).

#[global] Instance M_ret : MRet M := λ A a s, (inr a, s).

#[global] Instance M_bind : MBind M := λ A B k m s,
  match m s with
  | (inr a, s') => k a s'
  | (inl e, s') => (inl e, s')
  end.

(** [db.execute(stmt)] *)
Definition execute {A} (q : stmt A) : M A :=
  λ s, match q (pending s) with
       | inl e => (inl e, s)
       | inr (a, db') => (inr a, Sess (committed s) db')
       end.

(** [db.commit()] *)
Definition commit : M unit :=
  λ s, (inr tt, Sess (pending s) (pending s)).

(** Attribute access on a pydantic instance. *)
Definition getattr (o : obj) (a : string) : M value :=
  match o !! a with
  | Some v => mret v
  | None => raise (AttributeError a)
  end.

(** One request: a fresh session over the store, closed afterwards. *)
Definition run_request {A} (h : M A) (db : DB) : (exn + A) * DB :=
  let '(r, s) := h (Sess db db) in (r, committed s).

(** ** The handlers of [main.py] *)

(** What the request brings from outside the store: the clock behind
    [datetime.utcnow], the salt [gensalt()] draws, and bcrypt's [hashpw]. *)
Record Env : Type := MkEnv {
  utcnow : Z;
  gensalt : string;
  hashpw : string → string → string
}.

(** What a handler returns: a row, a list of rows, or a plain dict. *)
Inductive retval : Type :=
| Row (r : obj)
| Rows (l : list obj)
| Dict (d : obj).

Definition role_returning : list string := ["id"; "name"; "permissions"].

Definition user_returning : list string :=
  ["id"; "email"; "username"; "role_id"; "registered_at";
   "is_active"; "is_superuser"; "is_verified"].

Definition artist_returning : list string := ["id"; "name"; "genre"; "country"].

Definition album_returning : list string :=
  ["id"; "title"; "release_date"; "artist_id"].

Definition song_returning : list string :=
  ["id"; "title"; "duration"; "album_id"; "artist_id"].

(** [{k: v for k, v in d.items() if v is not None}] *)
Definition drop_None (d : obj) : obj :=
  filter (λ kv, is_None kv.2 = false) d.

(** [if result is None: raise HTTPException(404, detail); return result] *)
Definition or_404 (detail : string) (result : option obj) : M retval :=
  match result with
  | None => raise (HTTPException 404 detail)
  | Some r => mret (Row r)
  end.

Definition create_role (env : Env) (role : obj) : M retval :=
  name ← getattr role "name";
  permissions ← getattr role "permissions";
  result ← execute (sql_insert (utcnow env) roles
                      (<["name" := name]> (<["permissions" := permissions]> ∅))
                      role_returning);
  commit;;
  mret (Row result).

Definition get_roles : M retval :=
  result ← execute (sql_select roles);
  mret (Rows result).

Definition get_role (role_id : Z) : M retval :=
  result ← execute (sql_select_by_id roles role_id);
  or_404 "Role not found" result.

Definition update_role (role_id : Z) (role : obj) : M retval :=
  name ← getattr role "name";
  permissions ← getattr role "permissions";
  result ← execute (sql_update roles role_id
                      (<["name" := name]> (<["permissions" := permissions]> ∅))
                      role_returning);
  commit;;
  or_404 "Role not found" result.

Definition create_user (env : Env) (user : obj) : M retval :=
  password ← getattr user "password";
  hashed_password ← match password with
                    | VStr p => mret (VStr (hashpw env p (gensalt env)))
                    | _ => raise (AttributeError "encode")
                    end;
  email ← getattr user "email";
  username ← getattr user "username";
  role_id ← getattr user "role_id";
  is_active ← getattr user "is_active";
  is_superuser ← getattr user "is_superuser";
  is_verified ← getattr user "is_verified";
  result ← execute (sql_insert (utcnow env) users
                      (<["email" := email]>
                       (<["username" := username]>
                        (<["role_id" := role_id]>
                         (<["hashed_password" := hashed_password]>
                          (<["is_active" := is_active]>
                           (<["is_superuser" := is_superuser]>
                            (<["is_verified" := is_verified]> ∅)))))))
                      user_returning);
  commit;;
  mret (Row result).

Definition get_users (limit offset : option Z) : M retval :=
  let limit := default 10 limit in
  let offset := default 0 offset in
  result ← execute (sql_select_page users limit offset);
  mret (Rows result).

Definition get_user (user_id : Z) : M retval :=
  result ← execute (sql_select_by_id users user_id);
  or_404 "User not found" result.

Definition update_user (user_id : Z) (user : obj) : M retval :=
  result ← execute (sql_update users user_id (drop_None user) user_returning);
  commit;;
  or_404 "User not found" result.

Definition create_artist (env : Env) (artist : obj) : M retval :=
  name ← getattr artist "name";
  genre ← getattr artist "genre";
  country ← getattr artist "country";
  result ← execute (sql_insert (utcnow env) artists
                      (<["name" := name]>
                       (<["genre" := genre]> (<["country" := country]> ∅)))
                      artist_returning);
  commit;;
  mret (Row result).

Definition get_artists (limit offset : option Z) : M retval :=
  let limit := default 10 limit in
  let offset := default 0 offset in
  result ← execute (sql_select_page artists limit offset);
  mret (Rows result).

Definition get_artist (artist_id : Z) : M retval :=
  result ← execute (sql_select_by_id artists artist_id);
  or_404 "Artist not found" result.

Definition delete_artist (artist_id : Z) : M retval :=
  rowcount ← execute (sql_delete artists artist_id);
  commit;;
  if rowcount =? 0 then raise (HTTPException 404 "Artist not found")
  else mret (Dict {[ "message" := VStr "Artist deleted successfully" ]}).

(** The [update_artist] of line 312, over [ArtistUpdate]: the first handler
    registered for [PUT /artists/{artist_id}]. *)
Definition update_artist (artist_id : Z) (artist : obj) : M retval :=
  result ← execute (sql_update artists artist_id (drop_None artist)
                      artist_returning);
  commit;;
  or_404 "Artist not found" result.

Definition create_album (env : Env) (album : obj) : M retval :=
  title ← getattr album "title";
  release_date ← getattr album "release_date";
  artist_id ← getattr album "artist_id";
  result ← execute (sql_insert (utcnow env) albums
                      (<["title" := title]>
                       (<["release_date" := release_date]>
                        (<["artist_id" := artist_id]> ∅)))
                      album_returning);
  commit;;
  mret (Row result).

Definition get_album (album_id : Z) : M retval :=
  result ← execute (sql_select_by_id albums album_id);
  or_404 "Album not found" result.

(** The [update_artist] of line 344, over [ArtistCreate]: registered second
    for the same method and path, and the one the module name is bound to in
    the end. *)
Definition update_artist' (artist_id : Z) (artist : obj) : M retval :=
  name ← getattr artist "name";
  genre ← getattr artist "genre";
  country ← getattr artist "country";
  result ← execute (sql_update artists artist_id
                      (<["name" := name]>
                       (<["genre" := genre]> (<["country" := country]> ∅)))
                      artist_returning);
  commit;;
  or_404 "Artist not found" result.

Definition create_song (env : Env) (song : obj) : M retval :=
  title ← getattr song "title";
  duration ← getattr song "duration";
  album_id ← getattr song "album_id";
  artist_id ← getattr song "artist_id";
  result ← execute (sql_insert (utcnow env) songs
                      (<["title" := title]>
                       (<["duration" := duration]>
                        (<["album_id" := album_id]>
                         (<["artist_id" := artist_id]> ∅))))
                      song_returning);
  commit;;
  mret (Row result).

Definition get_song (song_id : Z) : M retval :=
  result ← execute (sql_select_by_id songs song_id);
  or_404 "Song not found" result.

(** ** Responses and routing *)

Inductive content : Type :=
| JRecord (o : obj)
| JList (l : list obj)
| JDetail (detail : string).

Record response : Type := Response {
  status : Z;
  body : content
}.

(** The [response_model] of a route. *)
Inductive response_model : Type :=
| One (m : model)
| Many (m : model)
| Plain.

(** An [HTTPException] carries its status; a refused request body is 422;
    any other exception leaves the handler uncaught. *)
Definition error_response (e : exn) : response :=
  match e with
  | HTTPException code detail => Response code (JDetail detail)
  | RequestValidationError => Response 422 (JDetail "Unprocessable Entity")
  | _ => Response 500 (JDetail "Internal Server Error")
  end.

(** The returned value goes through the response model ([orm_mode]): only the
    model's fields are read from a row, and a row the model refuses is an
    error of the server. *)
Definition respond (rm : response_model) (r : exn + retval) : response :=
  match r with
  | inl e => error_response e
  | inr v =>
      match rm, v with
      | One m, Row r | One m, Dict r =>
          match parse_obj m r with
          | Some o => Response 200 (JRecord o)
          | None => error_response ResponseValidationError
          end
      | Many m, Rows l =>
          match mapM (parse_obj m) l with
          | Some os => Response 200 (JList os)
          | None => error_response ResponseValidationError
          end
      | Plain, Row r | Plain, Dict r => Response 200 (JRecord r)
      | Plain, Rows l => Response 200 (JList l)
      | One _, Rows _ | Many _, Row _ | Many _, Dict _ =>
          error_response ResponseValidationError
      end
  end.

(** A handler called for one request: session, handler, response model. *)
Definition call (rm : response_model) (h : M retval) (db : DB)
  : response * DB :=
  let '(r, db') := run_request h db in (respond rm r, db').

Inductive method : Type := GET | POST | PUT | DELETE.

#[global] Instance method_eq_dec : EqDecision method.
Proof. solve_decision. Defined.

(** A request for [/<resource>/] or [/<resource>/<id>], with its integer
    query parameters and its JSON body. *)
Record request : Type := Request {
  r_method : method;
  r_resource : string;
  r_id : option Z;
  r_query : gmap string Z;
  r_body : obj
}.

Record route : Type := Route {
  rt_method : method;
  rt_resource : string;
  rt_item : bool;
  rt_response_model : response_model;
  rt_endpoint : Env → request → M retval
}.

(** A body parameter annotated with the model [m]. *)
Definition with_body (m : model) (k : obj → M retval) (req : request)
  : M retval :=
  match parse_obj m (r_body req) with
  | Some o => k o
  | None => raise RequestValidationError
  end.

(** The integer path parameter. *)
Definition with_id (k : Z → M retval) (req : request) : M retval :=
  match r_id req with
  | Some i => k i
  | None => raise RequestValidationError
  end.

(** The routes of [app], in the order the decorators register them. *)
Definition routes : list route :=
  [ Route POST "roles" false (One Role)
      (λ env, with_body RoleCreate (create_role env));
    Route GET "roles" false (Many Role) (λ _ _, get_roles);
    Route GET "roles" true (One Role) (λ _, with_id get_role);
    Route PUT "roles" true (One Role)
      (λ _ req, with_id (λ i, with_body RoleCreate (update_role i) req) req);
    Route POST "users" false (One User)
      (λ env, with_body UserCreate (create_user env));
    Route GET "users" false (Many User)
      (λ _ req, get_users (r_query req !! "limit") (r_query req !! "offset"));
    Route GET "users" true (One User) (λ _, with_id get_user);
    Route PUT "users" true (One User)
      (λ _ req, with_id (λ i, with_body UserUpdate (update_user i) req) req);
    Route POST "artists" false (One Artist)
      (λ env, with_body ArtistCreate (create_artist env));
    Route GET "artists" false (Many Artist)
      (λ _ req, get_artists (r_query req !! "limit") (r_query req !! "offset"));
    Route GET "artists" true (One Artist) (λ _, with_id get_artist);
    Route DELETE "artists" true Plain (λ _, with_id delete_artist);
    Route PUT "artists" true (One Artist)
      (λ _ req, with_id (λ i, with_body ArtistUpdate (update_artist i) req) req);
    Route POST "albums" false (One Album)
      (λ env, with_body AlbumCreate (create_album env));
    Route GET "albums" true (One Album) (λ _, with_id get_album);
    Route PUT "artists" true (One Artist)
      (λ _ req, with_id (λ i, with_body ArtistCreate (update_artist' i) req) req);
    Route POST "songs" false (One Song)
      (λ env, with_body SongCreate (create_song env));
    Route GET "songs" true (One Song) (λ _, with_id get_song) ].

Definition path_matches (req : request) (rt : route) : bool :=
  String.eqb (rt_resource rt) (r_resource req)
  && Bool.eqb (rt_item rt) (bool_decide (is_Some (r_id req))).

Definition matches (req : request) (rt : route) : bool :=
  path_matches req rt && bool_decide (rt_method rt = r_method req).

(** The router serves a request with the first route that matches it. *)
Definition app (env : Env) (req : request) (db : DB) : response * DB :=
  match find (matches req) routes with
  | Some rt => call (rt_response_model rt) (rt_endpoint rt env req) db
  | None =>
      if existsb (path_matches req) routes
      then (Response 405 (JDetail "Method Not Allowed"), db)
      else (Response 404 (JDetail "Not Found"), db)
  end.

(** The store after a series of requests. *)
Definition run (env : Env) (reqs : list request) (db : DB) : DB :=
  foldl (λ d req, (app env req d).2) db reqs.

(** The row [select ... where id == i] finds. *)
Definition lookup_row (t : tbl) (i : Z) (db : DB) : option obj :=
  head (filter (λ r, has_id i r = true) (t_rows (table_of t db))).

(** ** Resource kinds *)

(** The path segment of a table's routes. *)
Definition resource (t : tbl) : string :=
  match t with
  | roles => "roles"
  | users => "users"
  | artists => "artists"
  | albums => "albums"
  | songs => "songs"
  end.

(** The response of the handlers of [t] for an id they do not find. *)
Definition not_found (t : tbl) : response :=
  Response 404
    (JDetail match t with
             | roles => "Role not found"
             | users => "User not found"
             | artists => "Artist not found"
             | albums => "Album not found"
             | songs => "Song not found"
             end).

(** The model of the body of [PUT /<t>/{id}], for the tables that have the
    route. *)
Definition update_body (t : tbl) : option model :=
  match t with
  | roles => Some RoleCreate
  | users => Some UserUpdate
  | artists => Some ArtistUpdate
  | albums | songs => None
  end.

(** The model of the body of [POST /<t>/]. *)
Definition create_body (t : tbl) : model :=
  match t with
  | roles => RoleCreate
  | users => UserCreate
  | artists => ArtistCreate
  | albums => AlbumCreate
  | songs => SongCreate
  end.

(** The response model of the routes of [t]. *)
Definition record_model (t : tbl) : model :=
  match t with
  | roles => Role
  | users => User
  | artists => Artist
  | albums => Album
  | songs => Song
  end.

(** ** Outcomes of an update *)



(** ** Pages *)

(** The rows of [t] that a list request with the query [q] selects: [limit]
    rows (10 when the query has none) after the first [offset] rows (0 when
    the query has none) of the table in scan order. *)
Definition page (t : tbl) (q : gmap string Z) (db : DB) : list obj :=
  take (Z.to_nat (default 10 (q !! "limit")))
       (drop (Z.to_nat (default 0 (q !! "offset"))) (t_rows (table_of t db))).

(** ** Columns that never change *)

(** The columns of a stored row that are set when it is created. *)
Definition frozen (t : tbl) : list string :=
  match t with
  | users => ["id"; "registered_at"]
  | _ => ["id"]
  end.

(** Every row that [db] holds in [t] is still found under its id in [db'],
    with the same values in the frozen columns. *)
Definition keeps (t : tbl) (db db' : DB) : Prop :=
  ∀ i row, lookup_row t i db = Some row →
    ∃ row', lookup_row t i db' = Some row'
            ∧ ∀ c, c ∈ frozen t → row' !! c = row !! c.

(** ** Foreign keys *)


(** ** What a response shows of a stored user *)

(** A row without its [hashed_password]. *)
Definition visible (r : obj) : obj := delete "hashed_password" r.

(** The two stores differ at most in the [hashed_password] of their users. *)
Definition same_but_hash (db1 db2 : DB) : Prop :=
  d_roles db1 = d_roles db2
  ∧ d_artists db1 = d_artists db2
  ∧ d_albums db1 = d_albums db2
  ∧ d_songs db1 = d_songs db2
  ∧ t_seq (d_users db1) = t_seq (d_users db2)
  ∧ Forall2 (λ r1 r2, visible r1 = visible r2)
            (t_rows (d_users db1)) (t_rows (d_users db2)).

(** The content holds a value under the key [k], in its record or in one of
    the records of its list. *)
Definition reveals (k : string) (c : content) : Prop :=
  match c with
  | JRecord o => is_Some (o !! k)
  | JList l => Exists (λ o, is_Some (o !! k)) l
  | JDetail _ => False
  end.

Abbreviation veq := (λ r1 r2 : obj, visible r1 = visible r2).

(** Two answers that agree, leave stores that differ at most in the hashes,
    and show no hash. *)
Definition blind (x1 x2 : response * DB) : Prop :=
  x1.1 = x2.1
  ∧ same_but_hash x1.2 x2.2
  ∧ ¬ reveals "hashed_password" (body x1.1).

(** ** The statement behind [PUT] *)

(** The [.returning(...)] columns of the statements on [t]. *)
Definition returning (t : tbl) : list string :=
  match t with
  | roles => role_returning
  | users => user_returning
  | artists => artist_returning
  | albums => album_returning
  | songs => song_returning
  end.

(** The [detail] of the 404 of the handlers of [t]. *)
Definition not_found_detail (t : tbl) : string :=
  match body (not_found t) with
  | JDetail d => d
  | _ => ""
  end.

(** The assignments that [PUT /<t>/{id}] with the body [b] passes to
    [.values(...)]: for users and artists the fields of the instance that are
    not [None], for roles the name and the permissions of the instance.
    [None] when the body is refused, or when [t] has no such route. *)
Definition put_vals (t : tbl) (b : obj) : option obj :=
  match t with
  | roles =>
      u ← parse_obj RoleCreate b;
      name ← u !! "name";
      permissions ← u !! "permissions";
      Some (<["name" := name]> (<["permissions" := permissions]> ∅))
  | users => drop_None <$> parse_obj UserUpdate b
  | artists => drop_None <$> parse_obj ArtistUpdate b
  | albums | songs => None
  end.

(** ** Refusals *)

(** The exceptions that are answered with a status of their own: the
    [HTTPException] a handler raises and the refusal of a request body. *)
Definition refusal (r : exn + retval) : Prop :=
  match r with
  | inl (HTTPException _ _) | inl RequestValidationError => True
  | _ => False
  end.

(** A handler run that ends in a refusal has left the store as it was. *)
Definition quiet (db : DB) (x : (exn + retval) * DB) : Prop :=
  refusal x.1 → x.2 = db.

(** ** What a request writes *)

(** The store a request leaves is the store it found, or the result of one
    statement on it: an insert, an update that does not assign [id], or a
    delete. *)
Inductive writes (db : DB) : DB → Prop :=
  | writes_nothing : writes db db
  | writes_insert (now : Z) (t : tbl) (vals : obj) (ret : list string)
      (row : obj) (db' : DB) :
      sql_insert now t vals ret db = inr (row, db') → writes db db'
  | writes_update (t : tbl) (i : Z) (vals : obj) (ret : list string)
      (row : option obj) (db' : DB) :
      vals !! "id" = None →
      sql_update t i vals ret db = inr (row, db') → writes db db'
  | writes_delete (t : tbl) (i n : Z) (db' : DB) :
      sql_delete t i db = inr (n, db') → writes db db'.

(** ** Consistency of the store *)

(** The primary key of a row. *)
Definition row_id (r : obj) : option Z :=
  match r !! "id" with
  | Some (VInt n) => Some n
  | _ => None
  end.

(** The primary keys of the rows of [t], in scan order. *)
Definition ids (t : tbl) (db : DB) : list Z :=
  omap row_id (t_rows (table_of t db)).

(** No two rows of a table share a primary key, and no primary key is ahead
    of the sequence of its table. *)
Definition keys_ok (db : DB) : Prop :=
  ∀ t, NoDup (ids t db) ∧ Forall (λ n, n ≤ t_seq (table_of t db)) (ids t db).

(** The foreign keys of the row [r] of [t] are [NULL] or name a row that the
    store holds. *)
Definition row_refs_ok (db : DB) (t : tbl) (r : obj) : bool :=
  forallb (λ c, from_option (fk_ok db c) true (r !! c_name c)) (columns t).

(** No row of the store points at a row that is not there. *)
Definition refs_ok (db : DB) : Prop :=
  ∀ t, Forall (λ r, row_refs_ok db t r = true) (t_rows (table_of t db)).

(** ** Example data *)

Module Examples.

Definition env0 : Env := MkEnv 1700000000 "$2b$12$salt" (λ p s, s +:+ p).

Definition empty : table := Table [] 0.

Definition role_row (i : Z) (name : string) (perms : list (string * value))
  : obj :=
  <["id" := VInt i]> (<["name" := VStr name]>
    (<["permissions" := VDict perms]> ∅)).

Definition user_row (i : Z) (email username : string) (at_ : Z)
    (role : value) (hash : string) : obj :=
  <["id" := VInt i]> (<["email" := VStr email]>
    (<["username" := VStr username]> (<["registered_at" := VTime at_]>
      (<["role_id" := role]> (<["hashed_password" := VStr hash]>
        (<["is_active" := VBool true]> (<["is_superuser" := VBool false]>
          (<["is_verified" := VBool false]> ∅)))))))).

Definition artist_row (i : Z) (name : string) (genre country : value)
  : obj :=
  <["id" := VInt i]> (<["name" := VStr name]>
    (<["genre" := genre]> (<["country" := country]> ∅))).

Definition album_row (i : Z) (title : string) (date : Z) (artist : Z)
  : obj :=
  <["id" := VInt i]> (<["title" := VStr title]>
    (<["release_date" := VTime date]> (<["artist_id" := VInt artist]> ∅))).

(** One role with permissions, one user holding it, two artists, and an
    album of the second artist. *)
Definition db1 : DB :=
  Store
    (Table [role_row 1 "admin" [("write", VBool true)]] 1)
    (Table [user_row 1 "ann@example.org" "ann" 1600000000 (VInt 1) "$2b$12$h"] 1)
    (Table [artist_row 1 "Nina" (VStr "jazz") (VStr "US");
            artist_row 2 "Fela" (VStr "afrobeat") VNone] 2)
    (Table [album_row 1 "Zombie" 220000000 2] 1)
    empty.


(** A users table whose scan order is not the order of the ids. *)
Definition db_unordered : DB :=
  Store
    (Table [role_row 1 "admin" []] 1)
    (Table [user_row 2 "bob@example.org" "bob" 1600000500 (VInt 1) "$2b$12$b";
            user_row 1 "ann@example.org" "ann" 1600000000 (VInt 1) "$2b$12$a"] 2)
    empty empty empty.

(** The [User] view of a stored user: no [hashed_password]. *)
Definition user_record (i : Z) (email username : string) (at_ : Z)
    (role : value) : obj :=
  <["id" := VInt i]> (<["email" := VStr email]>
    (<["username" := VStr username]> (<["registered_at" := VTime at_]>
      (<["role_id" := role]> (<["is_active" := VBool true]>
        (<["is_superuser" := VBool false]>
          (<["is_verified" := VBool false]> ∅))))))).

(** A body for [POST /users/] that [UserCreate] accepts; it also carries a
    [password] key, which the model does not declare. *)
Definition bob : obj :=
  <["email" := VStr "bob@example.org"]> (<["username" := VStr "bob"]>
    (<["role_id" := VInt 1]> (<["hashed_password" := VStr "hunter2"]>
      (<["password" := VStr "hunter2"]> ∅)))).

(** The store [db1] with another hash for its user. *)
Definition db1_rehashed : DB :=
  Store
    (d_roles db1)
    (Table [user_row 1 "ann@example.org" "ann" 1600000000 (VInt 1) "$2b$12$z"] 1)
    (d_artists db1) (d_albums db1) (d_songs db1).

(** Two requests served before the one under test. *)
Definition earlier : list request :=
  [ Request DELETE "artists" (Some 1) ∅ ∅;
    Request POST "roles" None ∅ {[ "name" := VStr "guest" ]} ].

(** A store whose one user has no role: [role_id] is [NULL], which the column
    allows. *)
Definition db_norole : DB :=
  Store
    (Table [role_row 1 "admin" []] 1)
    (Table [user_row 7 "eve@example.org" "eve" 1600000900 VNone "$2b$12$e"] 7)
    empty empty empty.

End Examples.

(** Closed equations between concrete stores and responses are decided by
    evaluation. *)
Ltac by_vm :=
  lazymatch goal with
  | |- ?a = ?b => vm_cast_no_check (eq_refl b)
  end.

(** ** Pydantic instances *)

Lemma parse_obj_dom (m : model) (b o : obj) :
  parse_obj m b = Some o → dom o = list_to_set (field_names m).
Proof.
  revert o. induction m as [|f m IH]; intros o H; simpl in H.
  - by simplify_eq.
  - simplify_option_eq. rewrite dom_insert_L. simpl. f_equal. by apply IH.
Qed.

Lemma parse_obj_ext (m : model) (b1 b2 : obj) :
  (∀ k, k ∈ field_names m → b1 !! k = b2 !! k) →
  parse_obj m b1 = parse_obj m b2.
Proof.
  induction m as [|f m IH]; intros H; simpl; [done|].
  rewrite (H (f_name f)) by (simpl; left).
  rewrite IH; [done|]. intros k Hk. apply H. simpl. by right.
Qed.

Lemma parse_obj_None_key (m : model) (b o : obj) (k : string) :
  parse_obj m b = Some o → k ∉ field_names m → o !! k = None.
Proof.
  intros H Hk. apply not_elem_of_dom. rewrite (parse_obj_dom _ _ _ H).
  by rewrite elem_of_list_to_set.
Qed.

(** A field the body supplies is kept with the supplied value. *)
Lemma parse_obj_supplied (m : model) (b o : obj) (k : string) (v : value) :
  parse_obj m b = Some o → k ∈ field_names m → b !! k = Some v →
  o !! k = Some v.
Proof.
  revert o. induction m as [|f m IH]; intros o H Hk Hb; simpl in *.
  - by apply elem_of_nil in Hk.
  - destruct (parse_obj m b) as [o'|] eqn:Hp.
    2:{ destruct (b !! f_name f) as [w|]; simpl in H;
          [destruct (accepts f w)|destruct (f_default f)]; simpl in H; done. }
    destruct (decide (f_name f = k)) as [Hfk|Hne].
    + rewrite Hfk, Hb in H. simpl in H.
      destruct (accepts f v); simpl in H; [|done].
      simplify_eq. by rewrite lookup_insert_eq.
    + apply elem_of_cons in Hk as [?|Hk]; [done|].
      assert (∃ w, o = <[f_name f := w]> o') as [w ->].
      { destruct (b !! f_name f) as [w|]; simpl in H;
          [destruct (accepts f w)|destruct (f_default f)]; simpl in H;
          simplify_eq; eauto. }
      rewrite lookup_insert_ne by done. by apply IH.
Qed.

(** Every field of the instance holds a value its annotation accepts, or the
    default. *)
Lemma parse_obj_field (m : model) (b o : obj) (k : string) (v : value) :
  parse_obj m b = Some o → o !! k = Some v →
  ∃ f, f ∈ m ∧ f_name f = k ∧
       ((b !! k = Some v ∧ accepts f v = true) ∨
        (b !! k = None ∧ f_default f = Some v)).
Proof.
  revert o. induction m as [|f m IH]; intros o H Ho; simpl in *.
  - by simplify_eq.
  - destruct (b !! f_name f) as [w|] eqn:Hw; simpl in H.
    + destruct (accepts f w) eqn:Hacc; simpl in H; [|done].
      destruct (parse_obj m b) as [o'|] eqn:Hp; simpl in H; [|done].
      simplify_eq. destruct (decide (f_name f = k)) as [<-|Hne].
      * rewrite lookup_insert_eq in Ho. simplify_eq.
        exists f. split; [by left|]. split; [done|]. by left.
      * rewrite lookup_insert_ne in Ho by done.
        destruct (IH _ eq_refl Ho) as (f' & ? & ? & ?).
        exists f'. split; [by right|]. done.
    + destruct (f_default f) as [d|] eqn:Hd; simpl in H; [|done].
      destruct (parse_obj m b) as [o'|] eqn:Hp; simpl in H; [|done].
      simplify_eq. destruct (decide (f_name f = k)) as [<-|Hne].
      * rewrite lookup_insert_eq in Ho. simplify_eq.
        exists f. split; [by left|]. split; [done|]. by right.
      * rewrite lookup_insert_ne in Ho by done.
        destruct (IH _ eq_refl Ho) as (f' & ? & ? & ?).
        exists f'. split; [by right|]. done.
Qed.

Lemma project_lookup (cols : list string) (r : obj) (k : string) :
  project cols r !! k = if decide (k ∈ cols) then r !! k else None.
Proof.
  unfold project. destruct (decide (k ∈ cols)) as [Hk|Hk].
  - destruct (r !! k) as [v|] eqn:Hr.
    + by apply map_lookup_filter_Some.
    + apply map_lookup_filter_None. left. done.
  - apply map_lookup_filter_None. right. intros v _. done.
Qed.

Lemma parse_obj_project (m : model) (cols : list string) (r : obj) :
  field_names m ⊆ cols → parse_obj m (project cols r) = parse_obj m r.
Proof.
  intros Hsub. apply parse_obj_ext. intros k Hk.
  rewrite project_lookup. by rewrite decide_True by (by apply Hsub).
Qed.

Lemma drop_None_lookup (d : obj) (k : string) :
  drop_None d !! k =
    match d !! k with
    | Some v => if is_None v then None else Some v
    | None => None
    end.
Proof.
  unfold drop_None. destruct (d !! k) as [v|] eqn:Hd.
  - destruct (is_None v) eqn:Hv.
    + apply map_lookup_filter_None. right. intros w Hw. simplify_eq. simpl.
      by rewrite Hv.
    + by apply map_lookup_filter_Some.
  - apply map_lookup_filter_None. by left.
Qed.


#[global] Arguments parse_obj : simpl never.

(** ** The store *)

Lemma table_of_with_table (t : tbl) (x : table) (db : DB) :
  table_of t (with_table t x db) = x.
Proof. by destruct t. Qed.

Lemma table_of_with_table_ne (t t' : tbl) (x : table) (db : DB) :
  t ≠ t' → table_of t' (with_table t x db) = table_of t' db.
Proof. by destruct t, t'. Qed.


Lemma existsb_has_id (i : Z) (l : list obj) :
  existsb (has_id i) l = true ↔ is_Some (head (filter (λ r, has_id i r = true) l)).
Proof.
  induction l as [|r l IH]; simpl.
  - split; [done|]. by intros [? ?].
  - rewrite filter_cons. destruct (decide (has_id i r = true)) as [Hr|Hr].
    + rewrite Hr. simpl. split; eauto.
    + apply not_true_is_false in Hr. by rewrite Hr.
Qed.

Lemma lookup_row_None (t : tbl) (i : Z) (db : DB) :
  lookup_row t i db = None ↔
  filter (λ r, has_id i r = true) (t_rows (table_of t db)) = [].
Proof.
  unfold lookup_row. by destruct (filter _ _).
Qed.

Lemma lookup_row_Some (t : tbl) (i : Z) (db : DB) (row : obj) :
  lookup_row t i db = Some row →
  row ∈ t_rows (table_of t db) ∧ row !! "id" = Some (VInt i).
Proof.
  unfold lookup_row. intros H.
  assert (row ∈ filter (λ r, has_id i r = true) (t_rows (table_of t db))) as Hin.
  { destruct (filter _ _); simplify_eq/=. by left. }
  apply list_elem_of_filter in Hin as [Hid ?]. split; [done|].
  unfold has_id, col_is in Hid.
  destruct (row !! "id") as [[]|]; try done.
  apply Z.eqb_eq in Hid. by subst.
Qed.

(** A mapping that holds no ["id"] leaves the id of the rows it is merged
    into alone. *)
Lemma has_id_union (vals r : obj) (j : Z) :
  vals !! "id" = None → has_id j (vals ∪ r) = has_id j r.
Proof.
  intros H. unfold has_id, col_is. by rewrite lookup_union_r.
Qed.

Lemma head_filter_fmap {A} (P : A → Prop) `{!∀ x, Decision (P x)}
    (f : A → A) (l : list A) :
  (∀ x, P (f x) ↔ P x) →
  head (filter P (f <$> l)) = f <$> head (filter P l).
Proof.
  intros HP. induction l as [|x l IH]; [done|].
  rewrite fmap_cons, !filter_cons.
  destruct (decide (P x)) as [Hx|Hx].
  - rewrite decide_True by (by apply HP). done.
  - rewrite decide_False by (by rewrite HP). done.
Qed.

Lemma lookup_row_merge (t : tbl) (i j : Z) (vals : obj) (db : DB) :
  vals !! "id" = None →
  lookup_row t j
    (with_table t (Table (merge_at i vals <$> t_rows (table_of t db))
                         (t_seq (table_of t db))) db)
  = merge_at i vals <$> lookup_row t j db.
Proof.
  intros Hid. unfold lookup_row. rewrite table_of_with_table. simpl.
  apply head_filter_fmap. intros r. unfold merge_at.
  destruct (has_id i r); [|done]. by rewrite has_id_union.
Qed.

Lemma sql_update_absent (t : tbl) (i : Z) (vals : obj) (cols : list string)
    (db : DB) :
  keys_are_columns t vals = true → lookup_row t i db = None →
  sql_update t i vals cols db = inr (None, db).
Proof.
  intros Hk Hr. unfold sql_update. rewrite Hk. simpl.
  apply lookup_row_None in Hr. by rewrite Hr.
Qed.

Lemma sql_update_present (t : tbl) (i : Z) (vals : obj) (cols : list string)
    (db : DB) (row : obj) :
  keys_are_columns t vals = true → lookup_row t i db = Some row →
  sql_update t i vals cols db =
    if constraints_ok db t vals
    then inr (Some (project cols (vals ∪ row)),
              with_table t (Table (merge_at i vals <$> t_rows (table_of t db))
                                  (t_seq (table_of t db))) db)
    else inl IntegrityError.
Proof.
  intros Hk Hr. unfold sql_update, lookup_row in *. rewrite Hk. simpl.
  destruct (filter _ _) as [|r l]; simplify_eq/=. done.
Qed.

Lemma keys_are_columns_sub (t : tbl) (vals : obj) (names : list string) :
  (∀ k, is_Some (vals !! k) → k ∈ names) →
  forallb (λ k, bool_decide (k ∈ column_names t)) names = true →
  keys_are_columns t vals = true.
Proof.
  intros Hsub Hall. unfold keys_are_columns. apply bool_decide_eq_true.
  intros k v Hkv. simpl.
  rewrite forallb_forall in Hall.
  specialize (Hall k). rewrite <- list_elem_of_In in Hall.
  eapply bool_decide_eq_true_1, Hall, Hsub. eauto.
Qed.

Lemma constraints_ok_intro (db : DB) (t : tbl) (vals : obj) :
  (∀ c v, c ∈ columns t → vals !! c_name c = Some v → column_ok db c v = true) →
  constraints_ok db t vals = true.
Proof.
  intros H. unfold constraints_ok. apply forallb_forall. intros c Hc.
  apply list_elem_of_In in Hc.
  destruct (vals !! c_name c) as [v|] eqn:Hv; simpl; eauto.
Qed.

(** ** Running a handler *)

Lemma run_read (q : stmt (option obj)) (detail : string) (db : DB) :
  run_request (result ← execute q; or_404 detail result) db =
    match q db with
    | inl e => (inl e, db)
    | inr (None, _) => (inl (HTTPException 404 detail), db)
    | inr (Some r, _) => (inr (Row r), db)
    end.
Proof.
  unfold run_request, mbind, M_bind, execute, or_404. simpl.
  by destruct (q db) as [e|[[r|] db']].
Qed.

Lemma run_write (q : stmt (option obj)) (detail : string) (db : DB) :
  run_request (result ← execute q; commit;; or_404 detail result) db =
    match q db with
    | inl e => (inl e, db)
    | inr (None, db') => (inl (HTTPException 404 detail), db')
    | inr (Some r, db') => (inr (Row r), db')
    end.
Proof.
  unfold run_request, mbind, M_bind, execute, commit, or_404. simpl.
  by destruct (q db) as [e|[[r|] db']].
Qed.

Lemma run_insert (q : stmt obj) (db : DB) :
  run_request (result ← execute q; commit;; mret (Row result)) db =
    match q db with
    | inl e => (inl e, db)
    | inr (r, db') => (inr (Row r), db')
    end.
Proof.
  unfold run_request, mbind, M_bind, execute, commit, mret, M_ret. simpl.
  by destruct (q db) as [e|[r db']].
Qed.

Lemma run_getattr {A} (o : obj) (a : string) (v : value) (k : value → M A)
    (db : DB) :
  o !! a = Some v →
  run_request (x ← getattr o a; k x) db = run_request (k v) db.
Proof.
  intros H. unfold run_request, mbind, M_bind, getattr. by rewrite H.
Qed.

Lemma run_getattr_None {A} (o : obj) (a : string) (k : value → M A) (db : DB) :
  o !! a = None →
  run_request (x ← getattr o a; k x) db = (inl (AttributeError a), db).
Proof.
  intros H. unfold run_request, mbind, M_bind, getattr. by rewrite H.
Qed.

(** ** Routing *)

Lemma app_get (env : Env) (t : tbl) (i : Z) (q : gmap string Z) (b : obj)
    (db : DB) :
  app env (Request GET (resource t) (Some i) q b) db =
  call (One (record_model t))
       (result ← execute (sql_select_by_id t i);
        or_404 match body (not_found t) with JDetail d => d | _ => "" end result)
       db.
Proof. by destruct t. Qed.

Lemma app_put_roles (env : Env) (i : Z) (q : gmap string Z) (b : obj) (db : DB) :
  app env (Request PUT "roles" (Some i) q b) db =
  call (One Role)
       (with_body RoleCreate (update_role i) (Request PUT "roles" (Some i) q b))
       db.
Proof. reflexivity. Qed.

Lemma app_put_users (env : Env) (i : Z) (q : gmap string Z) (b : obj) (db : DB) :
  app env (Request PUT "users" (Some i) q b) db =
  call (One User)
       (with_body UserUpdate (update_user i) (Request PUT "users" (Some i) q b))
       db.
Proof. reflexivity. Qed.

(** [PUT /artists/{artist_id}] is served by the handler of line 312. *)
Lemma app_put_artists (env : Env) (i : Z) (q : gmap string Z) (b : obj)
    (db : DB) :
  app env (Request PUT "artists" (Some i) q b) db =
  call (One Artist)
       (with_body ArtistUpdate (update_artist i)
          (Request PUT "artists" (Some i) q b))
       db.
Proof. reflexivity. Qed.

Lemma app_delete_artists (env : Env) (i : Z) (q : gmap string Z) (b : obj)
    (db : DB) :
  app env (Request DELETE "artists" (Some i) q b) db =
  call Plain (delete_artist i) db.
Proof. reflexivity. Qed.

Lemma app_post (env : Env) (t : tbl) (q : gmap string Z) (b : obj) (db : DB) :
  app env (Request POST (resource t) None q b) db =
  call (One (record_model t))
       (with_body (create_body t)
          match t with
          | roles => create_role env
          | users => create_user env
          | artists => create_artist env
          | albums => create_album env
          | songs => create_song env
          end (Request POST (resource t) None q b))
       db.
Proof. by destruct t. Qed.


Lemma app_list_users (env : Env) (q : gmap string Z) (b : obj) (db : DB) :
  app env (Request GET "users" None q b) db =
  call (Many User) (get_users (q !! "limit") (q !! "offset")) db.
Proof. reflexivity. Qed.

Lemma app_list_artists (env : Env) (q : gmap string Z) (b : obj) (db : DB) :
  app env (Request GET "artists" None q b) db =
  call (Many Artist) (get_artists (q !! "limit") (q !! "offset")) db.
Proof. reflexivity. Qed.

(** ** Updates *)

Lemma run_update (t : tbl) (i : Z) (vals : obj) (cols : list string)
    (detail : string) (db : DB) :
  keys_are_columns t vals = true →
  run_request (result ← execute (sql_update t i vals cols);
               commit;; or_404 detail result) db =
    match lookup_row t i db with
    | None => (inl (HTTPException 404 detail), db)
    | Some row =>
        if constraints_ok db t vals
        then (inr (Row (project cols (vals ∪ row))),
              with_table t (Table (merge_at i vals <$> t_rows (table_of t db))
                                  (t_seq (table_of t db))) db)
        else (inl IntegrityError, db)
    end.
Proof.
  intros Hk. rewrite run_write.
  destruct (lookup_row t i db) as [row|] eqn:Hr.
  - rewrite (sql_update_present _ _ _ _ _ row) by done.
    by destruct (constraints_ok db t vals).
  - by rewrite sql_update_absent.
Qed.

Lemma instance_key (m : model) (u : obj) (k : string) :
  dom u = list_to_set (field_names m) → is_Some (u !! k) → k ∈ field_names m.
Proof.
  intros Hd Hk. apply elem_of_dom in Hk. rewrite Hd in Hk.
  by apply elem_of_list_to_set in Hk.
Qed.

Lemma drop_None_keys (m : model) (t : tbl) (u : obj) :
  dom u = list_to_set (field_names m) →
  forallb (λ k, bool_decide (k ∈ column_names t)) (field_names m) = true →
  keys_are_columns t (drop_None u) = true.
Proof.
  intros Hd Hall. apply (keys_are_columns_sub _ _ (field_names m)); [|done].
  intros k [v Hv]. apply (instance_key m u); [done|].
  rewrite drop_None_lookup in Hv. destruct (u !! k); [eauto|done].
Qed.

Lemma drop_None_no_key (m : model) (u : obj) (k : string) :
  dom u = list_to_set (field_names m) → k ∉ field_names m →
  drop_None u !! k = None.
Proof.
  intros Hd Hk. rewrite drop_None_lookup.
  destruct (u !! k) as [v|] eqn:Hv; [|done].
  exfalso. apply Hk. apply (instance_key m u); eauto.
Qed.

(** The values of a two-column assignment. *)
Lemma keys_are_columns_role (name permissions : value) :
  keys_are_columns roles
    (<["name" := name]> (<["permissions" := permissions]> ∅)) = true.
Proof.
  apply (keys_are_columns_sub _ _ ["name"; "permissions"]); [|done].
  intros k [v Hv]. destruct (decide (k = "name")) as [->|?]; [by left|].
  rewrite lookup_insert_ne in Hv by done.
  destruct (decide (k = "permissions")) as [->|?]; [by right; left|].
  by rewrite lookup_insert_ne in Hv by done.
Qed.

Lemma instance_lookup (m : model) (u : obj) (k : string) :
  dom u = list_to_set (field_names m) → k ∈ field_names m → is_Some (u !! k).
Proof.
  intros Hd Hk. apply elem_of_dom. rewrite Hd. by apply elem_of_list_to_set.
Qed.

(** ** Deletion *)

Lemma run_delete (i : Z) (db : DB) :
  run_request (delete_artist i) db =
    match lookup_row artists i db with
    | None => (inl (HTTPException 404 "Artist not found"), db)
    | Some _ =>
        if referenced db artists i then (inl IntegrityError, db)
        else (inr (Dict {[ "message" := VStr "Artist deleted successfully" ]}),
              with_table artists
                (Table (filter (λ r, has_id i r = false)
                          (t_rows (table_of artists db)))
                       (t_seq (table_of artists db))) db)
    end.
Proof.
  unfold run_request, delete_artist, mbind, M_bind, execute, commit, sql_delete,
    lookup_row. simpl.
  destruct (filter _ _) as [|r l]; simpl; [done|].
  destruct (referenced db artists i); simpl; [done|].
  by destruct (length l).
Qed.



(** ** The update that sets nothing *)







(** ** Partial updates *)


Lemma accepts_not_None (f : field) (v : value) :
  accepts f v = true → is_None v = false → has_type (f_type f) v = true.
Proof.
  unfold accepts. intros H Hn. rewrite Hn, andb_false_r, orb_false_r in H. done.
Qed.

(** What the instance holds where [drop_None] keeps a value: a value the
    body supplied, of the field's type. *)
Lemma drop_None_field (m : model) (b u : obj) (k : string) (v : value) :
  Forall (λ f, f_default f = Some VNone) m →
  parse_obj m b = Some u → drop_None u !! k = Some v →
  is_None v = false ∧ b !! k = Some v ∧
  ∃ f, f ∈ m ∧ f_name f = k ∧ has_type (f_type f) v = true.
Proof.
  intros Hdef Hu Hk. rewrite drop_None_lookup in Hk.
  destruct (u !! k) as [w|] eqn:Hw; [|done].
  destruct (is_None w) eqn:Hn; [done|]. simplify_eq.
  destruct (parse_obj_field _ _ _ _ _ Hu Hw) as (f & Hf & <- & [[Hb Hacc]|[Hb Hd]]).
  - split; [done|]. split; [done|]. exists f. split; [done|]. split; [done|].
    by apply accepts_not_None.
  - rewrite Forall_forall in Hdef. rewrite (Hdef f Hf) in Hd.
    by simplify_eq.
Qed.

(** What [drop_None] drops: the fields the body leaves out or sets to
    [null], and every key the model does not have. *)
Lemma drop_None_absent (m : model) (b u : obj) (k : string) :
  Forall (λ f, f_default f = Some VNone) m →
  parse_obj m b = Some u →
  k ∉ field_names m ∨ b !! k = None ∨ b !! k = Some VNone →
  drop_None u !! k = None.
Proof.
  intros Hdef Hu Hk.
  destruct (drop_None u !! k) as [v|] eqn:Hv; [|done].
  destruct (drop_None_field _ _ _ _ _ Hdef Hu Hv) as (Hn & Hb & f & Hf & <- & _).
  destruct Hk as [Hk|[Hk|Hk]].
  - exfalso. apply Hk. unfold field_names. by apply list_elem_of_fmap_2.
  - congruence.
  - rewrite Hb in Hk. by simplify_eq.
Qed.

Lemma drop_None_supplied (m : model) (b u : obj) (k : string) (v : value) :
  parse_obj m b = Some u → k ∈ field_names m → b !! k = Some v → v ≠ VNone →
  drop_None u !! k = Some v.
Proof.
  intros Hu Hk Hb Hv. rewrite drop_None_lookup.
  rewrite (parse_obj_supplied _ _ _ _ _ Hu Hk Hb). by destruct v.
Qed.

Lemma merge_at_lookup_row (t : tbl) (i : Z) (vals row : obj) (db : DB) :
  vals !! "id" = None → lookup_row t i db = Some row →
  lookup_row t i
    (with_table t (Table (merge_at i vals <$> t_rows (table_of t db))
                         (t_seq (table_of t db))) db)
  = Some (vals ∪ row).
Proof.
  intros Hid Hr. rewrite lookup_row_merge by done. rewrite Hr. simpl.
  apply lookup_row_Some in Hr as [_ Hi].
  unfold merge_at, has_id, col_is. by rewrite Hi, Z.eqb_refl.
Qed.

Lemma constraints_ok_users (db : DB) (vals : obj) :
  (∀ k v, vals !! k = Some v → is_None v = false) →
  (∀ v, vals !! "role_id" = Some v →
        ∃ n, v = VInt n ∧ is_Some (lookup_row roles n db)) →
  constraints_ok db users vals = true.
Proof.
  intros Hnn Hfk. apply constraints_ok_intro. intros c v Hc Hv.
  pose proof (Hnn _ _ Hv) as Hn.
  unfold column_ok, not_null_ok, fk_ok. rewrite Hn.
  simpl in Hc. repeat (apply elem_of_cons in Hc as [->|Hc]); simpl; try done.
  - destruct (Hfk _ Hv) as (n & -> & Hrow). by apply existsb_has_id.
  - by apply elem_of_nil in Hc.
Qed.


Lemma drop_None_not_None (u : obj) (k : string) (v : value) :
  drop_None u !! k = Some v → is_None v = false.
Proof.
  rewrite drop_None_lookup. destruct (u !! k) as [w|]; [|done].
  destruct (is_None w) eqn:Hw; [done|]. by intros [= <-].
Qed.







(** ** Passwords *)

(** C2.  What the code does where the claim fails.  [create_user] reads
    [user.password], an attribute the [UserCreate] of [main.py] does not have:
    every [POST /users/] ends in a refused body (422) or in the
    [AttributeError] (500), nothing is hashed and nothing is stored.
    [update_user] passes a supplied [hashed_password] to the store as it is:
    after [PUT /users/1] with [hashed_password = "hunter2"] the column holds
    ["hunter2"]. *)
Theorem create_user_raises_update_user_stores_plaintext :
  (∀ env q b db,
     app env (Request POST "users" None q b) db
     = (Response 422 (JDetail "Unprocessable Entity"), db)
     ∨ app env (Request POST "users" None q b) db
       = (Response 500 (JDetail "Internal Server Error"), db))
  ∧ is_Some (parse_obj UserCreate Examples.bob)
  ∧ app Examples.env0 (Request POST "users" None ∅ Examples.bob) Examples.db1
    = (Response 500 (JDetail "Internal Server Error"), Examples.db1)
  ∧ lookup_row users 1
      (app Examples.env0
         (Request PUT "users" (Some 1) ∅ {[ "hashed_password" := VStr "hunter2" ]})
         Examples.db1).2 ≫= (.!! "hashed_password")
    = Some (VStr "hunter2").
Proof.
  split; [|split; [|split]].
  - intros env q b db. rewrite (app_post env users). unfold call, with_body.
    simpl. destruct (parse_obj UserCreate b) as [u|] eqn:Hu.
    + right. unfold create_user. rewrite run_getattr_None; [done|].
      apply (parse_obj_None_key _ _ _ _ Hu). simpl.
      intros H. repeat (apply elem_of_cons in H as [?|H]; [done|]).
      by apply elem_of_nil in H.
    + by left.
  - exists (<["email" := VStr "bob@example.org"]> (<["username" := VStr "bob"]>
              (<["role_id" := VInt 1]> (<["hashed_password" := VStr "hunter2"]>
                (<["is_active" := VBool true]> (<["is_superuser" := VBool false]>
                  (<["is_verified" := VBool false]> ∅))))))).
    by_vm.
  - by_vm.
  - by_vm.
Qed.

(** ** The two definitions of [update_artist] *)

(** C9.  The two definitions of [update_artist] disagree.  For the stored
    artist 1 (genre jazz) and the payload [{"name": "Nina Simone"}], which
    leaves the optional [genre] out, both answer 200; the one of line 312
    (over [ArtistUpdate], dropping the [None] values) returns the record with
    the stored genre, the one of line 344 (over [ArtistCreate], writing the
    three columns) returns it with genre [null]. *)
Theorem update_artist_definitions_differ :
  ∃ (db : DB) (i : Z) (b a a' row rec rec' : obj),
    lookup_row artists i db = Some row
    ∧ b !! "genre" = None
    ∧ parse_obj ArtistUpdate b = Some a
    ∧ parse_obj ArtistCreate b = Some a'
    ∧ (call (One Artist) (update_artist i a) db).1 = Response 200 (JRecord rec)
    ∧ (call (One Artist) (update_artist' i a') db).1 = Response 200 (JRecord rec')
    ∧ rec !! "genre" = row !! "genre"
    ∧ rec' !! "genre" = Some VNone
    ∧ rec !! "genre" ≠ rec' !! "genre"
    ∧ lookup_row artists i (call (One Artist) (update_artist i a) db).2
      ≠ lookup_row artists i (call (One Artist) (update_artist' i a') db).2.
Proof.
  exists Examples.db1, 1, {[ "name" := VStr "Nina Simone" ]},
    (<["name" := VStr "Nina Simone"]> (<["genre" := VNone]>
       (<["country" := VNone]> ∅))),
    (<["name" := VStr "Nina Simone"]> (<["genre" := VNone]>
       (<["country" := VNone]> ∅))),
    (Examples.artist_row 1 "Nina" (VStr "jazz") (VStr "US")),
    (Examples.artist_row 1 "Nina Simone" (VStr "jazz") (VStr "US")),
    (Examples.artist_row 1 "Nina Simone" VNone VNone).
  repeat split; try by_vm.
  - vm_compute. discriminate.
  - intros H. apply (f_equal (λ o, o ≫= (.!! "genre"))) in H.
    vm_compute in H. discriminate.
Qed.

(** ** Deleting an artist *)

Lemma has_id_inj (i j : Z) (r : obj) :
  has_id i r = true → has_id j r = true → i = j.
Proof.
  unfold has_id, col_is. destruct (r !! "id") as [[]|]; try done.
  intros ?%Z.eqb_eq ?%Z.eqb_eq. congruence.
Qed.

Lemma filter_has_id_removed (i j : Z) (l : list obj) :
  filter (λ r, has_id j r = true) (filter (λ r, has_id i r = false) l)
  = if decide (i = j) then [] else filter (λ r, has_id j r = true) l.
Proof.
  induction l as [|r l IH]; [by case_decide|].
  rewrite (filter_cons (λ r, has_id i r = false)).
  destruct (decide (has_id i r = false)) as [Hi|Hi].
  - rewrite !filter_cons, IH.
    destruct (decide (has_id j r = true)) as [Hj|Hj]; [|done].
    case_decide; [|done]. subst. congruence.
  - apply not_false_is_true in Hi. rewrite IH, filter_cons.
    case_decide; [done|].
    rewrite decide_False; [done|]. intros Hj. by destruct (has_id_inj _ _ _ Hi Hj).
Qed.

Lemma lookup_row_removed (i j : Z) (db : DB) :
  lookup_row artists j
    (with_table artists
       (Table (filter (λ r, has_id i r = false) (t_rows (table_of artists db)))
              (t_seq (table_of artists db))) db)
  = if decide (i = j) then None else lookup_row artists j db.
Proof.
  unfold lookup_row. rewrite table_of_with_table. simpl.
  rewrite filter_has_id_removed. by case_decide.
Qed.

(** C6, as stated, fails.  Artist 2 is stored and an album refers to it:
    the first delete is neither a success nor a 404, the store refuses it and
    the artist stays. *)
Lemma delete_referenced_artist_refused :
  is_Some (lookup_row artists 2 Examples.db1)
  ∧ app Examples.env0 (Request DELETE "artists" (Some 2) ∅ ∅) Examples.db1
    = (Response 500 (JDetail "Internal Server Error"), Examples.db1).
Proof.
  split; [|by_vm].
  exists (Examples.artist_row 2 "Fela" (VStr "afrobeat") VNone). by_vm.
Qed.

(** C6 (amended).  [DELETE /artists/i] answers 404 exactly when the delete
    statement reports zero rows, there is no check before it.  For a stored
    artist that no album and no song refers to, it removes the row, leaves the
    other artists alone and answers 200 with the confirmation message, not
    the record; the same request again is answered 404 and changes nothing.
    For a stored artist that an album or a song refers to, the store refuses
    the delete and the row stays. *)
Theorem delete_artist_outcomes (env : Env) (i : Z) (q : gmap string Z)
    (b : obj) (db : DB) :
  ((app env (Request DELETE "artists" (Some i) q b) db).1 = not_found artists
   ↔ ∃ db', sql_delete artists i db = inr (0, db'))
  ∧ (lookup_row artists i db = None →
     app env (Request DELETE "artists" (Some i) q b) db = (not_found artists, db))
  ∧ (is_Some (lookup_row artists i db) → referenced db artists i = false →
     ∃ db',
       app env (Request DELETE "artists" (Some i) q b) db
       = (Response 200
            (JRecord {[ "message" := VStr "Artist deleted successfully" ]}),
          db')
       ∧ lookup_row artists i db' = None
       ∧ (∀ j, j ≠ i → lookup_row artists j db' = lookup_row artists j db)
       ∧ app env (Request DELETE "artists" (Some i) q b) db'
         = (not_found artists, db'))
  ∧ (is_Some (lookup_row artists i db) → referenced db artists i = true →
     app env (Request DELETE "artists" (Some i) q b) db
     = (Response 500 (JDetail "Internal Server Error"), db)).
Proof.
  rewrite !app_delete_artists. unfold call. rewrite run_delete.
  split; [|split; [|split]].
  - unfold sql_delete, lookup_row.
    destruct (filter _ (t_rows (table_of artists db))) as [|r l] eqn:Hf; simpl.
    + split; [eauto|done].
    + destruct (referenced db artists i); simpl.
      * split; [done|]. by intros [? ?].
      * split; [done|]. intros [? [=]].
  - by intros ->.
  - intros [row Hr] Href. rewrite Hr, Href. eexists. split; [done|].
    split; [|split].
    + rewrite lookup_row_removed. by rewrite decide_True.
    + intros j Hj. rewrite lookup_row_removed. by rewrite decide_False.
    + rewrite app_delete_artists. unfold call. rewrite run_delete.
      rewrite lookup_row_removed. by rewrite decide_True.
  - intros [row Hr] Href. by rewrite Hr, Href.
Qed.

(** The theorem on the example store: artist 1, which nothing refers to, is
    deleted once and not found the second time. *)
Lemma delete_artist_outcomes_witness :
  ∃ db',
    app Examples.env0 (Request DELETE "artists" (Some 1) ∅ ∅) Examples.db1
    = (Response 200
         (JRecord {[ "message" := VStr "Artist deleted successfully" ]}), db')
    ∧ lookup_row artists 1 db' = None
    ∧ (∀ j, j ≠ 1 → lookup_row artists j db' = lookup_row artists j Examples.db1)
    ∧ app Examples.env0 (Request DELETE "artists" (Some 1) ∅ ∅) db'
      = (not_found artists, db').
Proof.
  apply (proj1 (proj2 (proj2
           (delete_artist_outcomes Examples.env0 1 ∅ ∅ Examples.db1)))).
  - exists (Examples.artist_row 1 "Nina" (VStr "jazz") (VStr "US")). by_vm.
  - by_vm.
Defined.

(** ** Lists *)

Lemma run_list_page (t : tbl) (limit offset : Z) (db : DB) :
  run_request (result ← execute (sql_select_page t limit offset);
               mret (Rows result)) db =
    if (limit <? 0) || (offset <? 0) then (inl DataError, db)
    else (inr (Rows (take (Z.to_nat limit)
                       (drop (Z.to_nat offset) (t_rows (table_of t db))))), db).
Proof.
  unfold run_request, mbind, M_bind, execute, sql_select_page, mret, M_ret.
  simpl. by destruct ((limit <? 0) || (offset <? 0)).
Qed.




(** ** Immutable columns *)

Lemma keeps_refl (t : tbl) (db : DB) : keeps t db db.
Proof. intros i row Hr. eauto. Qed.

Lemma keeps_trans (t : tbl) (db1 db2 db3 : DB) :
  keeps t db1 db2 → keeps t db2 db3 → keeps t db1 db3.
Proof.
  intros H12 H23 i row Hr.
  destruct (H12 i row Hr) as (row2 & Hr2 & Hc2).
  destruct (H23 i row2 Hr2) as (row3 & Hr3 & Hc3).
  exists row3. split; [done|]. intros c Hc. by rewrite Hc3, Hc2.
Qed.

Lemma keeps_other (t t0 : tbl) (x : table) (db : DB) :
  t0 ≠ t → keeps t db (with_table t0 x db).
Proof.
  intros Hne i row Hr. exists row. split; [|done].
  unfold lookup_row in *. by rewrite table_of_with_table_ne.
Qed.

Lemma keeps_append (t t0 : tbl) (r : obj) (n : Z) (db : DB) :
  keeps t db (with_table t0 (Table (t_rows (table_of t0 db) ++ [r]) n) db).
Proof.
  destruct (decide (t0 = t)) as [->|Hne]; [|by apply keeps_other].
  intros i row Hr. exists row. split; [|done].
  unfold lookup_row in *. rewrite table_of_with_table. simpl.
  rewrite filter_app. by destruct (filter _ (t_rows (table_of t db))).
Qed.

Lemma frozen_id (t : tbl) : "id" ∈ frozen t.
Proof. destruct t; by left. Qed.

Lemma keeps_merge (t t0 : tbl) (i : Z) (vals : obj) (db : DB) :
  (t0 = t → ∀ c, c ∈ frozen t → vals !! c = None) →
  keeps t db
    (with_table t0 (Table (merge_at i vals <$> t_rows (table_of t0 db))
                          (t_seq (table_of t0 db))) db).
Proof.
  intros Hv. destruct (decide (t0 = t)) as [->|Hne]; [|by apply keeps_other].
  specialize (Hv eq_refl). intros j row Hr.
  rewrite lookup_row_merge by (apply Hv, frozen_id). rewrite Hr. simpl.
  eexists. split; [done|]. intros c Hc. unfold merge_at.
  destruct (has_id i row); [|done]. rewrite lookup_union_r; [done|by apply Hv].
Qed.

Lemma sql_insert_keeps (t t0 : tbl) (now : Z) (vals : obj)
    (cols : list string) (db db' : DB) (r : obj) :
  sql_insert now t0 vals cols db = inr (r, db') → keeps t db db'.
Proof.
  unfold sql_insert. intros H.
  destruct (negb (keys_are_columns t0 vals)); [done|].
  destruct (_ && _); [|done]. simplify_eq. apply keeps_append.
Qed.

Lemma sql_update_keeps (t t0 : tbl) (i : Z) (vals : obj) (cols : list string)
    (db db' : DB) (r : option obj) :
  (t0 = t → ∀ c, c ∈ frozen t → vals !! c = None) →
  sql_update t0 i vals cols db = inr (r, db') → keeps t db db'.
Proof.
  unfold sql_update. intros Hv H.
  destruct (negb (keys_are_columns t0 vals)); [done|].
  destruct (filter _ _); [simplify_eq; apply keeps_refl|].
  destruct (constraints_ok db t0 vals); [|done]. simplify_eq.
  by apply keeps_merge.
Qed.

Lemma sql_delete_keeps (t t0 : tbl) (i : Z) (db db' : DB) (n : Z) :
  t0 ≠ t → sql_delete t0 i db = inr (n, db') → keeps t db db'.
Proof.
  unfold sql_delete. intros Hne H.
  destruct (filter _ _); [simplify_eq; apply keeps_refl|].
  destruct (referenced db t0 i); [done|]. simplify_eq. by apply keeps_other.
Qed.

(** The store a handler leaves, by the shape of the handler. *)
Lemma run_getattr_keeps {A} (t : tbl) (o : obj) (a : string)
    (k : value → M A) (db : DB) :
  (∀ v, keeps t db (run_request (k v) db).2) →
  keeps t db (run_request (x ← getattr o a; k x) db).2.
Proof.
  intros H. destruct (o !! a) as [v|] eqn:Ho.
  - by rewrite (run_getattr _ _ _ _ _ Ho).
  - rewrite run_getattr_None by done. apply keeps_refl.
Qed.

Lemma run_insert_keeps (t : tbl) (q : stmt obj) (db : DB) :
  (∀ r db', q db = inr (r, db') → keeps t db db') →
  keeps t db (run_request (result ← execute q; commit;; mret (Row result)) db).2.
Proof.
  intros H. rewrite run_insert. destruct (q db) as [e|[r db']] eqn:Hq; simpl.
  - apply keeps_refl.
  - by eapply H.
Qed.

Lemma run_write_keeps (t : tbl) (q : stmt (option obj)) (detail : string)
    (db : DB) :
  (∀ r db', q db = inr (r, db') → keeps t db db') →
  keeps t db
    (run_request (result ← execute q; commit;; or_404 detail result) db).2.
Proof.
  intros H. rewrite run_write. destruct (q db) as [e|[[r|] db']] eqn:Hq; simpl.
  - apply keeps_refl.
  - by eapply H.
  - by eapply H.
Qed.

Lemma run_read_keeps (t : tbl) (q : stmt (option obj)) (detail : string)
    (db : DB) :
  keeps t db (run_request (result ← execute q; or_404 detail result) db).2.
Proof.
  rewrite run_read. destruct (q db) as [e|[[r|] db']]; apply keeps_refl.
Qed.

Lemma with_body_keeps (t : tbl) (m : model) (k : obj → M retval)
    (req : request) (db : DB) :
  (∀ u, parse_obj m (r_body req) = Some u → keeps t db (run_request (k u) db).2) →
  keeps t db (run_request (with_body m k req) db).2.
Proof.
  intros H. unfold with_body. destruct (parse_obj m (r_body req)) as [u|].
  - by apply H.
  - apply keeps_refl.
Qed.

Lemma with_id_keeps (t : tbl) (k : Z → M retval) (req : request) (db : DB) :
  (∀ i, keeps t db (run_request (k i) db).2) →
  keeps t db (run_request (with_id k req) db).2.
Proof.
  intros H. unfold with_id. destruct (r_id req) as [i|].
  - by apply H.
  - apply keeps_refl.
Qed.

Lemma call_snd (rm : response_model) (h : M retval) (db : DB) :
  (call rm h db).2 = (run_request h db).2.
Proof. unfold call. by destruct (run_request h db). Qed.

Lemma app_cases (env : Env) (req : request) (db : DB) :
  (∃ rt, rt ∈ routes ∧ rt_method rt = r_method req
         ∧ app env req db
           = call (rt_response_model rt) (rt_endpoint rt env req) db)
  ∨ (app env req db).2 = db.
Proof.
  unfold app. destruct (find (matches req) routes) as [rt|] eqn:Hf.
  - left. exists rt. apply find_some in Hf as [Hin Hm].
    split; [by apply list_elem_of_In|]. split; [|done].
    unfold matches in Hm. apply andb_prop in Hm as [_ Hm].
    by apply bool_decide_eq_true_1 in Hm.
  - right. by destruct (existsb _ _).
Qed.

Lemma run_hash_keeps {A} (t : tbl) (env : Env) (v : value) (k : value → M A)
    (db : DB) :
  (∀ w, keeps t db (run_request (k w) db).2) →
  keeps t db
    (run_request
       (x ← match v with
            | VStr p => mret (VStr (hashpw env p (gensalt env)))
            | _ => raise (AttributeError "encode")
            end; k x) db).2.
Proof.
  intros H. destruct v; try apply keeps_refl. apply H.
Qed.

Ltac keeps_step :=
  lazymatch goal with
  | |- keeps _ _ (run_request (with_id _ _) _).2 =>
      apply with_id_keeps; intros ?
  | |- keeps _ _ (run_request (with_body _ _ _) _).2 =>
      apply with_body_keeps; intros ? ?
  | |- keeps _ _ (run_request (mbind _ (getattr _ _)) _).2 =>
      apply run_getattr_keeps; intros ?
  | |- keeps _ _ (run_request (mbind _ (match _ with VStr _ => _ | _ => _ end)) _).2 =>
      apply run_hash_keeps; intros ?
  | |- keeps _ _ (run_request (mbind _ (execute (sql_select_by_id _ _))) _).2 =>
      apply run_read_keeps
  | |- keeps _ _ (run_request (mbind _ (execute (sql_insert _ _ _ _))) _).2 =>
      apply run_insert_keeps; intros ? ? ?; by eapply sql_insert_keeps
  | |- keeps _ _ (run_request (mbind _ (execute (sql_update _ _ _ _))) _).2 =>
      apply run_write_keeps; intros ? ? ?; eapply sql_update_keeps; [|done]
  | |- keeps _ _ (run_request get_roles _).2 => apply keeps_refl
  | |- keeps _ _ (run_request (get_users _ _) _).2 =>
      unfold get_users; rewrite run_list_page; destruct (_ || _);
      apply keeps_refl
  | |- keeps _ _ (run_request (get_artists _ _) _).2 =>
      unfold get_artists; rewrite run_list_page; destruct (_ || _);
      apply keeps_refl
  end.

Lemma not_in_list (k : string) (l : list string) :
  forallb (λ x, negb (String.eqb x k)) l = true → k ∉ l.
Proof.
  intros H Hk. rewrite forallb_forall in H.
  apply list_elem_of_In, H in Hk. by rewrite String.eqb_refl in Hk.
Qed.

Lemma frozen_not_assigned (t : tbl) (m : model) (b u : obj) (c : string) :
  parse_obj m b = Some u →
  forallb (λ c, forallb (λ x, negb (String.eqb x c)) (field_names m))
          (frozen t) = true →
  c ∈ frozen t → drop_None u !! c = None.
Proof.
  intros Hu Hall Hc. apply (drop_None_no_key m); [by eapply parse_obj_dom|].
  apply not_in_list. rewrite forallb_forall in Hall.
  by apply Hall, list_elem_of_In.
Qed.

(** Whatever the request, the handler of a route leaves the frozen columns of
    every stored row alone; only [DELETE /artists/{id}] removes rows, and
    only from [artists]. *)
Lemma routes_keep :
  Forall (λ rt, ∀ env req db t,
            (t = artists → rt_method rt ≠ DELETE) →
            keeps t db (run_request (rt_endpoint rt env req) db).2) routes.
Proof.
  unfold routes.
  repeat apply Forall_cons_2; try apply Forall_nil_2;
    intros env req db t Ht; simpl in Ht; simpl rt_endpoint;
    unfold create_role, get_role, update_role, create_user, get_user,
      update_user, create_artist, get_artist, update_artist, create_album,
      get_album, update_artist', create_song, get_song;
    repeat keeps_step.
  - (* PUT /roles/{id} *)
    intros <- c Hc. apply list_elem_of_singleton in Hc as ->.
    rewrite !lookup_insert_ne by done. apply lookup_empty.
  - (* PUT /users/{id} *)
    intros <- c Hc. by eapply (frozen_not_assigned users UserUpdate).
  - (* DELETE /artists/{id} *)
    rewrite run_delete. destruct (lookup_row artists _ db); [|apply keeps_refl].
    destruct (referenced db artists _); [apply keeps_refl|].
    apply keeps_other. intros <-. by apply Ht.
  - (* PUT /artists/{id}, line 312 *)
    intros <- c Hc. by eapply (frozen_not_assigned artists ArtistUpdate).
  - (* PUT /artists/{id}, line 344 *)
    intros <- c Hc. apply list_elem_of_singleton in Hc as ->.
    rewrite !lookup_insert_ne by done. apply lookup_empty.
Qed.

Lemma app_keeps (env : Env) (req : request) (db : DB) (t : tbl) :
  (t = artists → r_method req ≠ DELETE) → keeps t db (app env req db).2.
Proof.
  intros Ht. destruct (app_cases env req db) as [(rt & Hin & Hm & ->)| ->].
  - rewrite call_snd. pose proof routes_keep as H.
    rewrite Forall_forall in H. apply (H rt Hin). by rewrite Hm.
  - apply keeps_refl.
Qed.

Lemma run_keeps (env : Env) (reqs : list request) (db : DB) (t : tbl) :
  t ≠ artists → keeps t db (run env reqs db).
Proof.
  intros Ht. revert db. induction reqs as [|req reqs IH]; intros db.
  - apply keeps_refl.
  - simpl. eapply keeps_trans; [|apply IH]. by apply app_keeps.
Qed.

(** A required field of a record holds what the row holds. *)
Lemma parse_obj_required (m : model) (r o : obj) (c : string) :
  parse_obj m r = Some o → c ∈ field_names m →
  (∀ f, f ∈ m → f_name f = c → f_default f = None) →
  o !! c = r !! c.
Proof.
  intros Ho Hc Hreq.
  assert (is_Some (o !! c)) as [v Hv].
  { apply elem_of_dom. rewrite (parse_obj_dom _ _ _ Ho).
    by apply elem_of_list_to_set. }
  destruct (parse_obj_field _ _ _ _ _ Ho Hv) as (f & Hf & Hn & [[Hr _]|[_ Hd]]).
  - congruence.
  - rewrite (Hreq f Hf Hn) in Hd. done.
Qed.

Lemma update_response (t : tbl) (m : model) (cols : list string)
    (detail : string) (i : Z) (vals row rec : obj) (db db' : DB) :
  keys_are_columns t vals = true → lookup_row t i db = Some row →
  call (One m) (result ← execute (sql_update t i vals cols);
                commit;; or_404 detail result) db
  = (Response 200 (JRecord rec), db') →
  parse_obj m (project cols (vals ∪ row)) = Some rec.
Proof.
  intros Hk Hr. unfold call. rewrite run_update by done. rewrite Hr.
  destruct (constraints_ok db t vals); simpl; [|done].
  destruct (parse_obj m _); simpl; [|done]. congruence.
Qed.

Lemma frozen_fields_required (t : tbl) (c : string) :
  c ∈ frozen t →
  c ∈ field_names (record_model t)
  ∧ ∀ f, f ∈ record_model t → f_name f = c → f_default f = None.
Proof.
  intros Hc. destruct t; simpl in Hc;
    repeat (apply elem_of_cons in Hc as [->|Hc]);
    try (by apply elem_of_nil in Hc);
    (split; [simpl; set_solver|]);
    intros f Hf Hn; simpl in Hf;
    repeat (apply elem_of_cons in Hf as [->|Hf]);
    try (by apply elem_of_nil in Hf); done.
Qed.

(** What an update answers with: the frozen columns of the stored row. *)
Lemma update_returns_frozen (env : Env) (t : tbl) (m : model) (i : Z)
    (q : gmap string Z) (b row rec : obj) (db db' : DB) (c : string) :
  update_body t = Some m → lookup_row t i db = Some row →
  app env (Request PUT (resource t) (Some i) q b) db
  = (Response 200 (JRecord rec), db') →
  c ∈ frozen t → rec !! c = row !! c.
Proof.
  intros Hm Hr Happ Hc.
  destruct (frozen_fields_required t c Hc) as [Hfield Hreq].
  assert (∀ vals cols,
            field_names (record_model t) ⊆ cols → vals !! c = None →
            parse_obj (record_model t) (project cols (vals ∪ row)) = Some rec →
            rec !! c = row !! c) as Hrec.
  { intros vals cols Hsub Hv Hp. rewrite parse_obj_project in Hp by done.
    rewrite (parse_obj_required _ _ _ c Hp) by done. by apply lookup_union_r. }
  destruct t; simplify_eq; simpl resource in Happ.
  - rewrite app_put_roles in Happ. unfold with_body in Happ. simpl in Happ.
    destruct (parse_obj RoleCreate b) as [u|] eqn:Hu; [|done].
    pose proof (parse_obj_dom _ _ _ Hu) as Hd.
    destruct (instance_lookup RoleCreate u "name" Hd) as [n Hn]; [by left|].
    destruct (instance_lookup RoleCreate u "permissions" Hd) as [p Hp];
      [by right; left|].
    unfold update_role, call in Happ.
    rewrite (run_getattr _ _ _ _ _ Hn), (run_getattr _ _ _ _ _ Hp) in Happ.
    apply (update_response _ _ _ _ _ _ row) in Happ;
      [|apply keys_are_columns_role|done].
    refine (Hrec _ _ _ _ Happ); [done|].
    apply list_elem_of_singleton in Hc as ->.
    rewrite !lookup_insert_ne by done. apply lookup_empty.
  - rewrite app_put_users in Happ. unfold with_body in Happ. simpl in Happ.
    destruct (parse_obj UserUpdate b) as [u|] eqn:Hu; [|done].
    pose proof (parse_obj_dom _ _ _ Hu) as Hd.
    apply (update_response _ _ _ _ _ _ row) in Happ;
      [|by apply (drop_None_keys UserUpdate)|done].
    refine (Hrec _ _ _ _ Happ); [done|].
    by eapply (frozen_not_assigned users UserUpdate).
  - rewrite app_put_artists in Happ. unfold with_body in Happ. simpl in Happ.
    destruct (parse_obj ArtistUpdate b) as [u|] eqn:Hu; [|done].
    pose proof (parse_obj_dom _ _ _ Hu) as Hd.
    apply (update_response _ _ _ _ _ _ row) in Happ;
      [|by apply (drop_None_keys ArtistUpdate)|done].
    refine (Hrec _ _ _ _ Happ); [done|].
    by eapply (frozen_not_assigned artists ArtistUpdate).
Qed.

(** C8.  No request other than the artist delete removes a stored row or
    changes its [id], nor, for a user, its [registered_at]: after any one
    request, and after any series of requests, every stored row is still
    found under its id with these columns as they were.  In particular no
    update changes them, whatever the payload and whatever the outcome, and
    the record a successful update returns carries the [id] (and for a user
    the [registered_at]) that the row had before. *)
Theorem frozen_columns_never_change (env : Env) (db : DB) :
  (∀ req t, (t = artists → r_method req ≠ DELETE) →
            keeps t db (app env req db).2)
  ∧ (∀ reqs t, t ≠ artists → keeps t db (run env reqs db))
  ∧ (∀ t m i q b row rec,
       update_body t = Some m → lookup_row t i db = Some row →
       (app env (Request PUT (resource t) (Some i) q b) db).1
       = Response 200 (JRecord rec) →
       (∃ row', lookup_row t i
                  (app env (Request PUT (resource t) (Some i) q b) db).2
                = Some row'
                ∧ ∀ c, c ∈ frozen t → row' !! c = row !! c)
       ∧ ∀ c, c ∈ frozen t → rec !! c = row !! c).
Proof.
  split; [|split].
  - intros req t Ht. by apply app_keeps.
  - intros reqs t Ht. by apply run_keeps.
  - intros t m i q b row rec Hm Hr Happ. split.
    + by apply (app_keeps env (Request PUT (resource t) (Some i) q b) db t).
    + intros c Hc.
      destruct (app env (Request PUT (resource t) (Some i) q b) db)
        as [r db'] eqn:Heq.
      simpl in Happ. subst r. by eapply update_returns_frozen.
Qed.

(** The theorem on the example store: a user update whose body tries to set
    [id] and [registered_at], and two earlier requests. *)
Lemma frozen_columns_never_change_witness :
  keeps users Examples.db1
    (app Examples.env0
       (Request PUT "users" (Some 1) ∅
          (<["username" := VStr "anna"]> (<["registered_at" := VTime 0]>
             {[ "id" := VInt 9 ]})))
       Examples.db1).2
  ∧ keeps users Examples.db1 (run Examples.env0 Examples.earlier Examples.db1)
  ∧ ∀ c, c ∈ frozen users →
         Examples.user_record 1 "ann@example.org" "anna" 1600000000 (VInt 1) !! c
         = Examples.user_row 1 "ann@example.org" "ann" 1600000000 (VInt 1)
             "$2b$12$h" !! c.
Proof.
  destruct (frozen_columns_never_change Examples.env0 Examples.db1)
    as (Hone & Hrun & Hput).
  split; [|split].
  - apply Hone. intros [=].
  - apply Hrun. intros [=].
  - apply (Hput users UserUpdate 1 ∅
             (<["username" := VStr "anna"]> (<["registered_at" := VTime 0]>
                {[ "id" := VInt 9 ]}))).
    + reflexivity.
    + by_vm.
    + by_vm.
Defined.

(** ** Creation *)

Lemma NoDup_column_names (t : tbl) : NoDup (column_names t).
Proof.
  destruct t; simpl;
    repeat (apply NoDup_cons; split; [apply not_in_list; reflexivity|]);
    apply NoDup_nil_2.
Qed.

Lemma new_row_lookup (now : Z) (t : tbl) (id : Z) (vals : obj) (c : column) :
  c ∈ columns t →
  new_row now t id vals !! c_name c
  = Some (if c_primary_key c then VInt id
          else default (eval_default now (c_default c)) (vals !! c_name c)).
Proof.
  intros Hc. unfold new_row. apply elem_of_list_to_map_1.
  - rewrite <- list_fmap_compose. apply NoDup_column_names.
  - by apply (list_elem_of_fmap_2' _ _ c).
Qed.

Lemma primary_key_is_id (t : tbl) (c : column) :
  c ∈ columns t → c_primary_key c = bool_decide (c_name c = "id").
Proof.
  intros Hc. destruct t; simpl in Hc;
    repeat (apply elem_of_cons in Hc as [->|Hc]);
    try (by apply elem_of_nil in Hc); done.
Qed.

Lemma id_is_column (t : tbl) : ∃ c, c ∈ columns t ∧ c_name c = "id".
Proof. destruct t; eexists; (split; [left|done]). Qed.

Lemma new_row_id (now : Z) (t : tbl) (id : Z) (vals : obj) :
  new_row now t id vals !! "id" = Some (VInt id).
Proof.
  destruct (id_is_column t) as (c & Hc & Hn). rewrite <- Hn.
  rewrite new_row_lookup by done.
  by rewrite (primary_key_is_id t c Hc), Hn.
Qed.

Lemma new_row_supplied (now : Z) (t : tbl) (id : Z) (vals : obj)
    (k : string) (v : value) :
  k ≠ "id" → k ∈ column_names t → vals !! k = Some v →
  new_row now t id vals !! k = Some v.
Proof.
  intros Hk Hin Hv. apply list_elem_of_fmap in Hin as (c & -> & Hc).
  rewrite new_row_lookup by done. rewrite (primary_key_is_id t c Hc).
  rewrite bool_decide_eq_false_2 by done. by rewrite Hv.
Qed.

Lemma sql_insert_inv (now : Z) (t : tbl) (vals : obj) (cols : list string)
    (db db' : DB) (r : obj) :
  sql_insert now t vals cols db = inr (r, db') →
  let id := t_seq (table_of t db) + 1 in
  r = project cols (new_row now t id vals)
  ∧ db' = with_table t
            (Table (t_rows (table_of t db) ++ [new_row now t id vals]) id) db
  ∧ lookup_row t id db = None.
Proof.
  unfold sql_insert. intros H.
  destruct (negb (keys_are_columns t vals)); [done|].
  destruct (negb (existsb _ _)) eqn:Hex; simpl in H; [|done].
  destruct (constraints_ok _ _ _); [|done]. simplify_eq.
  split; [done|]. split; [done|].
  apply negb_true_iff in Hex. unfold lookup_row.
  destruct (head _) eqn:Hh; [|done].
  assert (existsb (has_id (t_seq (table_of t db) + 1)) (t_rows (table_of t db))
          = true) as Ht by (apply existsb_has_id; eauto).
  congruence.
Qed.




Lemma call_getattr (rm : response_model) (o : obj) (a : string) (v : value)
    (k : value → M retval) (db : DB) :
  o !! a = Some v → call rm (x ← getattr o a; k x) db = call rm (k v) db.
Proof. intros H. unfold call. by rewrite (run_getattr _ _ _ _ _ H). Qed.

Lemma call_getattr_None (rm : response_model) (o : obj) (a : string)
    (k : value → M retval) (db : DB) :
  o !! a = None →
  call rm (x ← getattr o a; k x) db
  = (Response 500 (JDetail "Internal Server Error"), db).
Proof. intros H. unfold call. by rewrite run_getattr_None. Qed.

(** The attributes a handler reads from an instance of the model. *)
Ltac read_attr Hd u a :=
  let v := fresh "v" in
  let Hv := fresh "Hv" in
  destruct (instance_lookup _ u a Hd) as [v Hv];
  [apply list_elem_of_In; simpl; tauto|];
  rewrite (call_getattr _ u a v _ _ Hv) in *.















(** ** Hashes stay inside *)

Lemma veq_lookup (r1 r2 : obj) (k : string) :
  visible r1 = visible r2 → k ≠ "hashed_password" → r1 !! k = r2 !! k.
Proof.
  intros H Hk. apply (f_equal (.!! k)) in H. unfold visible in H.
  by rewrite !lookup_delete_ne in H by done.
Qed.

Lemma veq_has_id (r1 r2 : obj) (i : Z) :
  visible r1 = visible r2 → has_id i r1 = has_id i r2.
Proof.
  intros H. unfold has_id, col_is. by rewrite (veq_lookup r1 r2 "id" H).
Qed.

Lemma veq_parse_obj (m : model) (r1 r2 : obj) :
  "hashed_password" ∉ field_names m → visible r1 = visible r2 →
  parse_obj m r1 = parse_obj m r2.
Proof.
  intros Hm H. apply parse_obj_ext. intros k Hk. apply veq_lookup; [done|].
  by intros ->.
Qed.

Lemma veq_union (vals r1 r2 : obj) :
  visible r1 = visible r2 → visible (vals ∪ r1) = visible (vals ∪ r2).
Proof.
  intros H. unfold visible in *. apply map_eq. intros k.
  destruct (decide (k = "hashed_password")) as [->|Hk].
  - by rewrite !lookup_delete_eq.
  - rewrite !lookup_delete_ne by done. rewrite !lookup_union.
    apply (f_equal (.!! k)) in H. rewrite !lookup_delete_ne in H by done.
    by rewrite H.
Qed.

Lemma veq_merge_at (i : Z) (vals r1 r2 : obj) :
  visible r1 = visible r2 →
  visible (merge_at i vals r1) = visible (merge_at i vals r2).
Proof.
  intros H. unfold merge_at. rewrite (veq_has_id r1 r2 i H).
  destruct (has_id i r2); [by apply veq_union|done].
Qed.

Lemma veq_filter (i : Z) (l1 l2 : list obj) :
  Forall2 veq l1 l2 →
  Forall2 veq (filter (λ r, has_id i r = true) l1)
              (filter (λ r, has_id i r = true) l2).
Proof.
  induction 1 as [|r1 r2 l1 l2 Hr Hl IH]; [constructor|].
  rewrite !filter_cons. rewrite (veq_has_id r1 r2 i Hr).
  destruct (decide (has_id i r2 = true)); [by constructor|done].
Qed.

Lemma veq_lookup_row (i : Z) (db1 db2 : DB) :
  Forall2 veq (t_rows (d_users db1)) (t_rows (d_users db2)) →
  option_Forall2 veq (lookup_row users i db1) (lookup_row users i db2).
Proof.
  intros H. unfold lookup_row. simpl.
  destruct (veq_filter i _ _ H); by constructor.
Qed.

Lemma veq_mapM (m : model) (l1 l2 : list obj) :
  "hashed_password" ∉ field_names m → Forall2 veq l1 l2 →
  mapM (parse_obj m) l1 = mapM (parse_obj m) l2.
Proof.
  intros Hm. induction 1 as [|r1 r2 l1 l2 Hr Hl IH]; [done|].
  simpl. by rewrite (veq_parse_obj m r1 r2 Hm Hr), IH.
Qed.

Lemma same_but_hash_refl (db : DB) : same_but_hash db db.
Proof.
  repeat split. apply Forall2_same_length_lookup. split; [done|].
  intros i x y Hx Hy. congruence.
Qed.

Lemma constraints_ok_users_same (db1 db2 : DB) (vals : obj) :
  d_roles db1 = d_roles db2 →
  constraints_ok db1 users vals = constraints_ok db2 users vals.
Proof.
  intros H. unfold constraints_ok, column_ok, fk_ok. simpl. by rewrite H.
Qed.

Lemma veq_fmap_merge_at (i : Z) (vals : obj) (l1 l2 : list obj) :
  Forall2 veq l1 l2 →
  Forall2 veq (merge_at i vals <$> l1) (merge_at i vals <$> l2).
Proof.
  induction 1 as [|r1 r2 l1 l2 Hv Hl IH]; [constructor|].
  rewrite !fmap_cons. constructor; [by apply veq_merge_at|done].
Qed.

Lemma same_but_hash_merge (i : Z) (vals : obj) (db1 db2 : DB) :
  same_but_hash db1 db2 →
  same_but_hash
    (with_table users (Table (merge_at i vals <$> t_rows (table_of users db1))
                             (t_seq (table_of users db1))) db1)
    (with_table users (Table (merge_at i vals <$> t_rows (table_of users db2))
                             (t_seq (table_of users db2))) db2).
Proof.
  intros (Hr & Ha & Hal & Hs & Hseq & Hrows). repeat split; try done. simpl.
  by apply veq_fmap_merge_at.
Qed.

Lemma no_hash_in_user : "hashed_password" ∉ field_names User.
Proof. by apply not_in_list. Qed.

(** A response built through [User] holds no [hashed_password]. *)
Lemma respond_user_hides_hash (rm : response_model) (x : exn + retval) :
  rm = One User ∨ rm = Many User →
  ¬ reveals "hashed_password" (body (respond rm x)).
Proof.
  intros Hrm. destruct x as [e|v]; [destruct e; simpl; tauto|].
  destruct Hrm as [-> | ->]; destruct v as [r|l|d]; simpl; try tauto.
  - destruct (parse_obj User r) as [o|] eqn:Ho; simpl; [|tauto].
    intros [w Hw]. by rewrite (parse_obj_None_key _ _ _ _ Ho no_hash_in_user) in Hw.
  - destruct (parse_obj User d) as [o|] eqn:Ho; simpl; [|tauto].
    intros [w Hw]. by rewrite (parse_obj_None_key _ _ _ _ Ho no_hash_in_user) in Hw.
  - destruct (mapM (parse_obj User) l) as [os|] eqn:Hos; simpl; [|tauto].
    apply mapM_Some in Hos. intros Hex. apply Exists_exists in Hex as (o & Ho & [w Hw]).
    apply list_elem_of_lookup in Ho as [j Hj].
    destruct (Forall2_lookup_r _ _ _ _ _ Hos Hj) as (r & _ & Hp).
    by rewrite (parse_obj_None_key _ _ _ _ Hp no_hash_in_user) in Hw.
Qed.

Lemma blind_error (e : exn) (db1 db2 : DB) :
  same_but_hash db1 db2 → blind (error_response e, db1) (error_response e, db2).
Proof.
  intros H. split; [done|]. split; [done|]. destruct e; simpl; tauto.
Qed.

Lemma blind_detail (s : Z) (d : string) (db1 db2 : DB) :
  same_but_hash db1 db2 →
  blind (Response s (JDetail d), db1) (Response s (JDetail d), db2).
Proof. intros H. split; [done|]. split; [done|]. simpl. tauto. Qed.

Lemma blind_get_user (i : Z) (db1 db2 : DB) :
  same_but_hash db1 db2 →
  blind (call (One User) (get_user i) db1) (call (One User) (get_user i) db2).
Proof.
  intros H. pose proof H as (_ & _ & _ & _ & _ & Hrows).
  unfold call, get_user. rewrite !run_read. unfold sql_select_by_id.
  fold (lookup_row users i db1). fold (lookup_row users i db2).
  destruct (veq_lookup_row i db1 db2 Hrows) as [r1 r2 Hv|].
  - split; [|split; [done|]].
    + simpl. by rewrite (veq_parse_obj User r1 r2 no_hash_in_user Hv).
    + apply respond_user_hides_hash. by left.
  - by apply (blind_error (HTTPException 404 "User not found")).
Qed.

Lemma blind_get_users (limit offset : option Z) (db1 db2 : DB) :
  same_but_hash db1 db2 →
  blind (call (Many User) (get_users limit offset) db1)
        (call (Many User) (get_users limit offset) db2).
Proof.
  intros H. pose proof H as (_ & _ & _ & _ & _ & Hrows).
  unfold call, get_users. rewrite !run_list_page.
  destruct (_ || _); [by apply (blind_error DataError)|].
  split; [|split; [done|]].
  - simpl. erewrite veq_mapM; [done|apply no_hash_in_user|].
    by apply Forall2_take, Forall2_drop.
  - apply respond_user_hides_hash. by right.
Qed.

Lemma blind_update_user (i : Z) (u : obj) (db1 db2 : DB) :
  dom u = list_to_set (field_names UserUpdate) →
  same_but_hash db1 db2 →
  blind (call (One User) (update_user i u) db1)
        (call (One User) (update_user i u) db2).
Proof.
  intros Hd H. pose proof H as (Hroles & _ & _ & _ & _ & Hrows).
  unfold call, update_user.
  rewrite !run_update by (by apply (drop_None_keys UserUpdate)).
  rewrite (constraints_ok_users_same db1 db2 _ Hroles).
  destruct (veq_lookup_row i db1 db2 Hrows) as [r1 r2 Hv|].
  - destruct (constraints_ok db2 users (drop_None u));
      [|by apply (blind_error IntegrityError)].
    split; [|split].
    + simpl. rewrite !parse_obj_project by done.
      by rewrite (veq_parse_obj User _ _ no_hash_in_user
                    (veq_union (drop_None u) r1 r2 Hv)).
    + by apply same_but_hash_merge.
    + apply respond_user_hides_hash. by left.
  - by apply (blind_error (HTTPException 404 "User not found")).
Qed.

Lemma blind_create_user (env : Env) (req : request) (db1 db2 : DB) :
  same_but_hash db1 db2 →
  blind (call (One User) (with_body UserCreate (create_user env) req) db1)
        (call (One User) (with_body UserCreate (create_user env) req) db2).
Proof.
  intros H. unfold with_body.
  destruct (parse_obj UserCreate (r_body req)) as [u|] eqn:Hu.
  - unfold create_user. rewrite !call_getattr_None.
    + by apply blind_detail.
    + apply (parse_obj_None_key _ _ _ _ Hu). by apply not_in_list.
    + apply (parse_obj_None_key _ _ _ _ Hu). by apply not_in_list.
  - by apply (blind_error RequestValidationError).
Qed.

Lemma app_get_users (env : Env) (i : Z) (q : gmap string Z) (b : obj) (db : DB) :
  app env (Request GET "users" (Some i) q b) db = call (One User) (get_user i) db.
Proof. reflexivity. Qed.

Lemma app_post_users (env : Env) (q : gmap string Z) (b : obj) (db : DB) :
  app env (Request POST "users" None q b) db
  = call (One User)
      (with_body UserCreate (create_user env) (Request POST "users" None q b)) db.
Proof. reflexivity. Qed.

Ltac no_such_method :=
  lazymatch goal with
  | H : same_but_hash ?db1 ?db2
    |- blind (app ?env ?req ?db1) (app ?env ?req ?db2) =>
      change (app env req db1)
        with (Response 405 (JDetail "Method Not Allowed"), db1);
      change (app env req db2)
        with (Response 405 (JDetail "Method Not Allowed"), db2);
      by apply blind_detail
  end.

(** C10.  For every request to a users path, whatever the method, the
    query and the body: two stores that differ at most in the
    [hashed_password] of their users get the same response and are left
    differing at most in those hashes, and no record of the response holds a
    [hashed_password]. *)
Theorem responses_hide_hashed_password (env : Env) (req : request)
    (db1 db2 : DB) :
  r_resource req = "users" →
  same_but_hash db1 db2 →
  (app env req db1).1 = (app env req db2).1
  ∧ same_but_hash (app env req db1).2 (app env req db2).2
  ∧ ¬ reveals "hashed_password" (body (app env req db1).1).
Proof.
  intros Hres H. change (blind (app env req db1) (app env req db2)).
  destruct req as [m res id q b]. simpl in Hres. subst res.
  destruct m, id as [i|]; try no_such_method.
  - rewrite !app_get_users. by apply blind_get_user.
  - rewrite !app_list_users. by apply blind_get_users.
  - rewrite !app_post_users. by apply blind_create_user.
  - rewrite !app_put_users. unfold with_body. simpl r_body.
    destruct (parse_obj UserUpdate b) as [u|] eqn:Hu.
    + apply blind_update_user; [by eapply parse_obj_dom|done].
    + by apply (blind_error RequestValidationError).
Qed.

(** The theorem on the example store and its copy with another hash: the
    list of users is the same. *)
Lemma responses_hide_hashed_password_witness :
  (app Examples.env0 (Request GET "users" None ∅ ∅) Examples.db1).1
  = (app Examples.env0 (Request GET "users" None ∅ ∅) Examples.db1_rehashed).1
  ∧ same_but_hash
      (app Examples.env0 (Request GET "users" None ∅ ∅) Examples.db1).2
      (app Examples.env0 (Request GET "users" None ∅ ∅) Examples.db1_rehashed).2
  ∧ ¬ reveals "hashed_password"
        (body (app Examples.env0 (Request GET "users" None ∅ ∅) Examples.db1).1).
Proof.
  apply (responses_hide_hashed_password Examples.env0
           (Request GET "users" None ∅ ∅) Examples.db1 Examples.db1_rehashed).
  - reflexivity.
  - repeat split. simpl. constructor; [by_vm|constructor].
Defined.

(** ** Outcomes of [PUT] *)

Lemma put_vals_keys (t : tbl) (b vals : obj) :
  put_vals t b = Some vals →
  keys_are_columns t vals = true ∧ ∀ c, c ∈ frozen t → vals !! c = None.
Proof.
  destruct t; simpl; intros H; try done.
  - destruct (parse_obj RoleCreate b) as [u|]; simpl in H; [|done].
    destruct (u !! "name") as [n|]; simpl in H; [|done].
    destruct (u !! "permissions") as [p|]; simpl in H; [|done].
    simplify_eq. split; [apply keys_are_columns_role|].
    intros c Hc. apply list_elem_of_singleton in Hc as ->.
    rewrite !lookup_insert_ne by done. apply lookup_empty.
  - destruct (parse_obj UserUpdate b) as [u|] eqn:Hu; simpl in H; [|done].
    simplify_eq. pose proof (parse_obj_dom _ _ _ Hu) as Hd. split.
    + by apply (drop_None_keys UserUpdate).
    + intros c Hc. by eapply (frozen_not_assigned users UserUpdate).
  - destruct (parse_obj ArtistUpdate b) as [u|] eqn:Hu; simpl in H; [|done].
    simplify_eq. pose proof (parse_obj_dom _ _ _ Hu) as Hd. split.
    + by apply (drop_None_keys ArtistUpdate).
    + intros c Hc. by eapply (frozen_not_assigned artists ArtistUpdate).
Qed.

(** [PUT /<t>/{id}], for the three tables that have the route: the body is
    refused (422), or the update statement runs with the assignments of the
    body. *)
Lemma app_put (env : Env) (t : tbl) (m : model) (i : Z) (q : gmap string Z)
    (b : obj) (db : DB) :
  update_body t = Some m →
  app env (Request PUT (resource t) (Some i) q b) db =
    match put_vals t b with
    | None => (Response 422 (JDetail "Unprocessable Entity"), db)
    | Some vals =>
        call (One (record_model t))
             (result ← execute (sql_update t i vals (returning t));
              commit;; or_404 (not_found_detail t) result) db
    end.
Proof.
  intros Hm. destruct t; simplify_eq; simpl resource.
  - rewrite app_put_roles. unfold with_body, put_vals. simpl r_body.
    destruct (parse_obj RoleCreate b) as [u|] eqn:Hu; simpl; [|done].
    pose proof (parse_obj_dom _ _ _ Hu) as Hd.
    destruct (instance_lookup RoleCreate u "name" Hd) as [n Hn]; [by left|].
    destruct (instance_lookup RoleCreate u "permissions" Hd) as [p Hp];
      [by right; left|].
    rewrite Hn, Hp. simpl. unfold update_role.
    by rewrite (call_getattr _ _ _ _ _ _ Hn), (call_getattr _ _ _ _ _ _ Hp).
  - rewrite app_put_users. unfold with_body, put_vals. simpl r_body.
    by destruct (parse_obj UserUpdate b).
  - rewrite app_put_artists. unfold with_body, put_vals. simpl r_body.
    by destruct (parse_obj ArtistUpdate b).
Qed.

(** The four outcomes of [PUT /<t>/{id}]. *)
Lemma put_outcome (env : Env) (t : tbl) (m : model) (i : Z) (q : gmap string Z)
    (b : obj) (db : DB) :
  update_body t = Some m →
  app env (Request PUT (resource t) (Some i) q b) db =
    match put_vals t b with
    | None => (Response 422 (JDetail "Unprocessable Entity"), db)
    | Some vals =>
        match lookup_row t i db with
        | None => (not_found t, db)
        | Some row =>
            if constraints_ok db t vals
            then (match parse_obj (record_model t) (vals ∪ row) with
                  | Some rec => Response 200 (JRecord rec)
                  | None => Response 500 (JDetail "Internal Server Error")
                  end,
                  with_table t
                    (Table (merge_at i vals <$> t_rows (table_of t db))
                           (t_seq (table_of t db))) db)
            else (Response 500 (JDetail "Internal Server Error"), db)
        end
    end.
Proof.
  intros Hm. rewrite (app_put env t m) by done.
  destruct (put_vals t b) as [vals|] eqn:Hv; [|done].
  destruct (put_vals_keys t b vals Hv) as [Hk _].
  unfold call. rewrite run_update by done.
  destruct (lookup_row t i db) as [row|]; [|by destruct t].
  destruct (constraints_ok db t vals); [|done].
  simpl. rewrite parse_obj_project by (by destruct t).
  by destruct (parse_obj _ _).
Qed.

Lemma merge_at_idemp (i : Z) (vals : obj) (l : list obj) :
  vals !! "id" = None →
  merge_at i vals <$> (merge_at i vals <$> l) = merge_at i vals <$> l.
Proof.
  intros Hid. rewrite <- list_fmap_compose. apply list_fmap_ext.
  intros _ r _. simpl. unfold merge_at at 2.
  destruct (has_id i r) eqn:Hr.
  - unfold merge_at. rewrite has_id_union, Hr by done.
    by rewrite (assoc_L (∪)), (idemp_L (∪)).
  - unfold merge_at. by rewrite Hr.
Qed.

Lemma constraints_ok_own_table (t : tbl) (x : table) (vals : obj) (db : DB) :
  constraints_ok (with_table t x db) t vals = constraints_ok db t vals.
Proof. by destruct t. Qed.

Lemma put_ok_inv (env : Env) (t : tbl) (m : model) (i : Z) (q : gmap string Z)
    (b rec : obj) (db : DB) :
  update_body t = Some m →
  (app env (Request PUT (resource t) (Some i) q b) db).1
  = Response 200 (JRecord rec) →
  ∃ vals row,
    put_vals t b = Some vals
    ∧ lookup_row t i db = Some row
    ∧ constraints_ok db t vals = true
    ∧ parse_obj (record_model t) (vals ∪ row) = Some rec
    ∧ (app env (Request PUT (resource t) (Some i) q b) db).2
      = with_table t (Table (merge_at i vals <$> t_rows (table_of t db))
                            (t_seq (table_of t db))) db.
Proof.
  intros Hm. rewrite (put_outcome env t m) by done.
  destruct (put_vals t b) as [vals|] eqn:Hv; [|done].
  destruct (lookup_row t i db) as [row|] eqn:Hr; [|by destruct t].
  destruct (constraints_ok db t vals) eqn:Hc; [|done].
  destruct (parse_obj _ _) as [o|] eqn:Ho; simpl; [|done].
  intros [= ->]. by exists vals, row.
Qed.

(** X1.  Read your writes: when [PUT /<t>/i] is answered with a record, a
    [GET /<t>/i] on the store it leaves is answered with the same record. *)
Theorem put_then_get (env : Env) (t : tbl) (m : model) (i : Z)
    (q q' : gmap string Z) (b b' rec : obj) (db : DB) :
  update_body t = Some m →
  (app env (Request PUT (resource t) (Some i) q b) db).1
  = Response 200 (JRecord rec) →
  app env (Request GET (resource t) (Some i) q' b')
      (app env (Request PUT (resource t) (Some i) q b) db).2
  = (Response 200 (JRecord rec),
     (app env (Request PUT (resource t) (Some i) q b) db).2).
Proof.
  intros Hm Hput.
  destruct (put_ok_inv env t m i q b rec db Hm Hput)
    as (vals & row & Hv & Hr & Hc & Hrec & ->).
  destruct (put_vals_keys t b vals Hv) as [_ Hfrozen].
  rewrite app_get. unfold call. rewrite run_read. unfold sql_select_by_id.
  match goal with
  | |- context [head (filter _ (t_rows (table_of t ?d)))] =>
      change (head (filter (λ r, has_id i r = true) (t_rows (table_of t d))))
        with (lookup_row t i d)
  end.
  rewrite (merge_at_lookup_row t i vals row);
    [|by apply Hfrozen, frozen_id|done].
  simpl. by rewrite Hrec.
Qed.

Lemma put_then_get_witness :
  app Examples.env0 (Request GET "artists" (Some 2) ∅ ∅)
      (app Examples.env0
         (Request PUT "artists" (Some 2) ∅ {[ "genre" := VStr "highlife" ]})
         Examples.db1).2
  = (Response 200
       (JRecord (Examples.artist_row 2 "Fela" (VStr "highlife") VNone)),
     (app Examples.env0
        (Request PUT "artists" (Some 2) ∅ {[ "genre" := VStr "highlife" ]})
        Examples.db1).2).
Proof.
  apply (put_then_get Examples.env0 artists ArtistUpdate 2 ∅ ∅
           {[ "genre" := VStr "highlife" ]} ∅).
  - reflexivity.
  - by_vm.
Defined.

(** X2.  [PUT] is idempotent: when [PUT /<t>/i] is answered with a record,
    the same request on the store it leaves is answered with the same record
    and leaves that store as it is. *)
Theorem put_idempotent (env : Env) (t : tbl) (m : model) (i : Z)
    (q : gmap string Z) (b rec : obj) (db : DB) :
  update_body t = Some m →
  (app env (Request PUT (resource t) (Some i) q b) db).1
  = Response 200 (JRecord rec) →
  app env (Request PUT (resource t) (Some i) q b)
      (app env (Request PUT (resource t) (Some i) q b) db).2
  = (Response 200 (JRecord rec),
     (app env (Request PUT (resource t) (Some i) q b) db).2).
Proof.
  intros Hm Hput.
  destruct (put_ok_inv env t m i q b rec db Hm Hput)
    as (vals & row & Hv & Hr & Hc & Hrec & ->).
  destruct (put_vals_keys t b vals Hv) as [_ Hfrozen].
  pose proof (Hfrozen "id" (frozen_id t)) as Hid.
  rewrite (put_outcome env t m) by done. rewrite Hv.
  rewrite (merge_at_lookup_row t i vals row) by done.
  rewrite constraints_ok_own_table, Hc.
  rewrite (assoc_L (∪)), (idemp_L (∪)), Hrec.
  rewrite table_of_with_table. simpl.
  rewrite merge_at_idemp by done. f_equal.
  by destruct t, db.
Qed.

Lemma put_idempotent_witness :
  app Examples.env0
      (Request PUT "roles" (Some 1) ∅ {[ "name" := VStr "root" ]})
      (app Examples.env0
         (Request PUT "roles" (Some 1) ∅ {[ "name" := VStr "root" ]})
         Examples.db1).2
  = (Response 200 (JRecord (Examples.role_row 1 "root" [])),
     (app Examples.env0
        (Request PUT "roles" (Some 1) ∅ {[ "name" := VStr "root" ]})
        Examples.db1).2).
Proof.
  apply (put_idempotent Examples.env0 roles RoleCreate 1 ∅
           {[ "name" := VStr "root" ]}).
  - reflexivity.
  - by_vm.
Defined.

Lemma has_id_other (i j : Z) (r : obj) :
  has_id j r = true → i ≠ j → has_id i r = false.
Proof.
  intros Hj Hne. destruct (has_id i r) eqn:Hi; [|done].
  by destruct (has_id_inj _ _ _ Hi Hj).
Qed.

Lemma lookup_row_has_id (t : tbl) (j : Z) (db : DB) (r : obj) :
  lookup_row t j db = Some r → has_id j r = true.
Proof.
  intros H. apply lookup_row_Some in H as [_ H].
  unfold has_id, col_is. by rewrite H, Z.eqb_refl.
Qed.

(** X3.  [PUT /<t>/i] touches nothing but its row, whatever its outcome:
    the rows of [t] under every other id, every other table, and the sequence
    of [t] are as they were. *)
Theorem put_frame (env : Env) (t : tbl) (m : model) (i : Z)
    (q : gmap string Z) (b : obj) (db : DB) :
  update_body t = Some m →
  (∀ j, j ≠ i →
        lookup_row t j (app env (Request PUT (resource t) (Some i) q b) db).2
        = lookup_row t j db)
  ∧ (∀ t', t' ≠ t →
           table_of t' (app env (Request PUT (resource t) (Some i) q b) db).2
           = table_of t' db)
  ∧ t_seq (table_of t (app env (Request PUT (resource t) (Some i) q b) db).2)
    = t_seq (table_of t db).
Proof.
  intros Hm. rewrite (put_outcome env t m) by done.
  destruct (put_vals t b) as [vals|] eqn:Hv; [|done].
  destruct (lookup_row t i db) as [row|] eqn:Hr; [|done].
  destruct (constraints_ok db t vals); [|done]. simpl.
  destruct (put_vals_keys t b vals Hv) as [_ Hfrozen].
  split; [|split].
  - intros j Hj. rewrite lookup_row_merge by apply Hfrozen, frozen_id.
    destruct (lookup_row t j db) as [r|] eqn:Hrj; [|done]. simpl.
    unfold merge_at.
    by rewrite (has_id_other i j r (lookup_row_has_id _ _ _ _ Hrj)).
  - intros t' Ht'. by apply table_of_with_table_ne.
  - by rewrite table_of_with_table.
Qed.

Lemma put_frame_witness :
  lookup_row artists 1
    (app Examples.env0
       (Request PUT "artists" (Some 2) ∅ {[ "genre" := VStr "highlife" ]})
       Examples.db1).2
  = lookup_row artists 1 Examples.db1.
Proof.
  apply (proj1 (put_frame Examples.env0 artists ArtistUpdate 2 ∅
                  {[ "genre" := VStr "highlife" ]} Examples.db1 eq_refl)).
  done.
Defined.

(** X4.  A partial update cannot clear a column: after [PUT /users/i] or
    [PUT /artists/i], whatever the body, a column of the row that held a
    value other than [NULL] still holds one. *)
Theorem put_never_nulls (env : Env) (t : tbl) (i : Z) (q : gmap string Z)
    (b row : obj) (db : DB) (k : string) (v : value) :
  t = users ∨ t = artists →
  lookup_row t i db = Some row →
  row !! k = Some v → v ≠ VNone →
  ∃ row' w,
    lookup_row t i (app env (Request PUT (resource t) (Some i) q b) db).2
    = Some row'
    ∧ row' !! k = Some w ∧ w ≠ VNone.
Proof.
  intros Ht Hr Hk Hv.
  assert (∃ m, update_body t = Some m) as [m Hm]
    by (destruct Ht as [-> | ->]; eexists; done).
  rewrite (put_outcome env t m) by done.
  destruct (put_vals t b) as [vals|] eqn:Hvals; [|by exists row, v].
  rewrite Hr. destruct (constraints_ok db t vals); [|by exists row, v]. simpl.
  destruct (put_vals_keys t b vals Hvals) as [_ Hfrozen].
  rewrite (merge_at_lookup_row t i vals row) by (done || apply Hfrozen, frozen_id).
  exists (vals ∪ row).
  destruct (vals !! k) as [w|] eqn:Hw.
  - exists w. split; [done|]. split; [by apply lookup_union_Some_l|].
    assert (is_None w = false) as Hn.
    { destruct Ht as [-> | ->]; simpl in Hvals;
        destruct (parse_obj _ b) as [u|]; simplify_eq/=;
        by eapply drop_None_not_None. }
    by intros ->.
  - exists v. split; [done|]. split; [|done]. by rewrite lookup_union_r.
Qed.

Lemma put_never_nulls_witness :
  ∃ row' w,
    lookup_row artists 1
      (app Examples.env0
         (Request PUT "artists" (Some 1) ∅ {[ "genre" := VNone ]})
         Examples.db1).2
    = Some row'
    ∧ row' !! "genre" = Some w ∧ w ≠ VNone.
Proof.
  apply (put_never_nulls Examples.env0 artists 1 ∅ {[ "genre" := VNone ]}
           (Examples.artist_row 1 "Nina" (VStr "jazz") (VStr "US"))
           Examples.db1 "genre" (VStr "jazz")).
  - by right.
  - by_vm.
  - by_vm.
  - done.
Defined.

(** ** Users without a role *)

Lemma parse_obj_refuses_null (m : model) (r : obj) (k : string) :
  r !! k = Some VNone → k ∈ field_names m →
  (∀ f, f ∈ m → f_name f = k → f_optional f = false) →
  parse_obj m r = None.
Proof.
  intros Hr Hk Hreq. destruct (parse_obj m r) as [o|] eqn:Ho; [|done].
  exfalso.
  pose proof (parse_obj_supplied _ _ _ _ _ Ho Hk Hr) as Hok.
  destruct (parse_obj_field _ _ _ _ _ Ho Hok) as (f & Hf & Hn & [[_ Hacc]|[Hb _]]).
  - unfold accepts in Hacc. rewrite (Hreq f Hf Hn) in Hacc.
    destruct (f_type f); done.
  - congruence.
Qed.

Lemma user_without_role_refused (r : obj) :
  r !! "role_id" = Some VNone → parse_obj User r = None.
Proof.
  intros Hr. apply (parse_obj_refuses_null User r "role_id" Hr).
  - apply list_elem_of_In. simpl. tauto.
  - intros f Hf Hn. simpl in Hf.
    repeat (apply elem_of_cons in Hf as [->|Hf]);
      try (by apply elem_of_nil in Hf); done.
Qed.

(** X5.  The users table lets [role_id] be [NULL], the [User] response model
    does not: a stored user without a role cannot be read.  [GET /users/i] is
    answered 500 for it, and so is every [GET /users/] whose page holds it. *)
Theorem user_without_role_unreadable (env : Env) (i : Z) (q : gmap string Z)
    (b row : obj) (db : DB) :
  row !! "role_id" = Some VNone →
  (lookup_row users i db = Some row →
   app env (Request GET "users" (Some i) q b) db
   = (Response 500 (JDetail "Internal Server Error"), db))
  ∧ (row ∈ page users q db →
     app env (Request GET "users" None q b) db
     = (Response 500 (JDetail "Internal Server Error"), db)).
Proof.
  intros Hrole. pose proof (user_without_role_refused row Hrole) as Hp. split.
  - intros Hr. rewrite (app_get env users). unfold call. rewrite run_read.
    unfold sql_select_by_id. fold (lookup_row users i db). rewrite Hr. simpl.
    by rewrite Hp.
  - intros Hin. rewrite app_list_users. unfold call, get_users.
    rewrite run_list_page. destruct (_ || _); [done|]. simpl.
    unfold page in Hin. cbn [table_of] in Hin.
    destruct (mapM (parse_obj User) _) as [recs|] eqn:Hm; [|done].
    exfalso. apply mapM_Some in Hm. apply list_elem_of_lookup in Hin as [j Hj].
    destruct (Forall2_lookup_l _ _ _ _ _ Hm Hj) as (rec & _ & Hrec). congruence.
Qed.

Lemma user_without_role_unreadable_witness :
  app Examples.env0 (Request GET "users" (Some 7) ∅ ∅) Examples.db_norole
  = (Response 500 (JDetail "Internal Server Error"), Examples.db_norole)
  ∧ app Examples.env0 (Request GET "users" None ∅ ∅) Examples.db_norole
    = (Response 500 (JDetail "Internal Server Error"), Examples.db_norole).
Proof.
  destruct (user_without_role_unreadable Examples.env0 7 ∅ ∅
              (Examples.user_row 7 "eve@example.org" "eve" 1600000900 VNone
                 "$2b$12$e") Examples.db_norole) as [Hget Hlist].
  - by_vm.
  - split.
    + apply Hget. by_vm.
    + apply Hlist.
      assert (page users ∅ Examples.db_norole
              = [Examples.user_row 7 "eve@example.org" "eve" 1600000900 VNone
                   "$2b$12$e"]) as -> by by_vm.
      by left.
Defined.

(** X6.  [update_user] commits before its result goes through the response
    model.  For a stored user without a role, a [PUT /users/i] whose body is
    accepted and supplies no [role_id] is answered 500, and yet the fields
    the body supplies are stored. *)
Theorem put_user_commits_before_response (env : Env) (i : Z)
    (q : gmap string Z) (b u row : obj) (db : DB) :
  parse_obj UserUpdate b = Some u →
  lookup_row users i db = Some row →
  row !! "role_id" = Some VNone →
  b !! "role_id" = None ∨ b !! "role_id" = Some VNone →
  ∃ row',
    (app env (Request PUT "users" (Some i) q b) db).1
    = Response 500 (JDetail "Internal Server Error")
    ∧ lookup_row users i (app env (Request PUT "users" (Some i) q b) db).2
      = Some row'
    ∧ ∀ k v, k ∈ field_names UserUpdate → b !! k = Some v → v ≠ VNone →
             row' !! k = Some v.
Proof.
  intros Hu Hr Hrole Hb.
  assert (Forall (λ f, f_default f = Some VNone) UserUpdate) as Hdef
    by repeat constructor.
  assert (drop_None u !! "role_id" = None) as Hnone.
  { apply (drop_None_absent UserUpdate b u); [done|done|]. by right. }
  assert (drop_None u !! "id" = None) as Hid.
  { apply (drop_None_absent UserUpdate b u); [done|done|]. left.
    by apply not_in_list. }
  exists (drop_None u ∪ row).
  rewrite (put_outcome env users UserUpdate) by done.
  unfold put_vals. rewrite Hu. simpl. rewrite Hr.
  rewrite constraints_ok_users.
  - rewrite user_without_role_refused by (by rewrite lookup_union_r).
    simpl. split; [done|].
    split; [exact (merge_at_lookup_row users i _ row db Hid Hr)|].
    intros k v Hk Hbk Hv. apply lookup_union_Some_l.
    by apply (drop_None_supplied UserUpdate b).
  - apply drop_None_not_None.
  - intros v Hv. congruence.
Qed.

Lemma put_user_commits_before_response_witness :
  ∃ row',
    (app Examples.env0
       (Request PUT "users" (Some 7) ∅ {[ "username" := VStr "eva" ]})
       Examples.db_norole).1
    = Response 500 (JDetail "Internal Server Error")
    ∧ lookup_row users 7
        (app Examples.env0
           (Request PUT "users" (Some 7) ∅ {[ "username" := VStr "eva" ]})
           Examples.db_norole).2
      = Some row'
    ∧ ∀ k v, k ∈ field_names UserUpdate →
             ({[ "username" := VStr "eva" ]} : obj) !! k = Some v → v ≠ VNone →
             row' !! k = Some v.
Proof.
  apply (put_user_commits_before_response Examples.env0 7 ∅
           {[ "username" := VStr "eva" ]}
           (<["email" := VNone]> (<["username" := VStr "eva"]>
              (<["role_id" := VNone]> (<["hashed_password" := VNone]>
                (<["is_active" := VNone]> (<["is_superuser" := VNone]>
                  (<["is_verified" := VNone]> ∅)))))))
           (Examples.user_row 7 "eve@example.org" "eve" 1600000900 VNone
              "$2b$12$e")).
  - by_vm.
  - by_vm.
  - by_vm.
  - by left.
Defined.

(** ** The two [update_artist] on a full payload *)

(** X7.  The two definitions of [update_artist] agree on the payloads that
    set all three fields: for a body that gives [name], [genre] and [country]
    values other than null, the handler of line 312 and the handler of line
    344 give the same answer and leave the same store. *)
Theorem update_artist_definitions_agree (i : Z) (b a a' : obj) (db : DB) :
  parse_obj ArtistUpdate b = Some a →
  parse_obj ArtistCreate b = Some a' →
  (∀ k, k ∈ field_names ArtistUpdate → ∃ v, b !! k = Some v ∧ v ≠ VNone) →
  call (One Artist) (update_artist i a) db
  = call (One Artist) (update_artist' i a') db.
Proof.
  intros Ha Ha' Hall.
  destruct (Hall "name") as (n & Hn & Hn'); [by left|].
  destruct (Hall "genre") as (g & Hg & Hg'); [by right; left|].
  destruct (Hall "country") as (c & Hc & Hc'); [by right; right; left|].
  assert (∀ k v, k ∈ field_names ArtistUpdate → b !! k = Some v →
                 a !! k = Some v ∧ a' !! k = Some v) as Hboth.
  { intros k v Hk Hb. split.
    - by apply (parse_obj_supplied _ _ _ _ _ Ha).
    - by apply (parse_obj_supplied _ _ _ _ _ Ha'). }
  destruct (Hboth "name" n) as [Han Han']; [by left|done|].
  destruct (Hboth "genre" g) as [Hag Hag']; [by right; left|done|].
  destruct (Hboth "country" c) as [Hac Hac']; [by right; right; left|done|].
  unfold update_artist'.
  rewrite (call_getattr _ _ _ _ _ _ Han'), (call_getattr _ _ _ _ _ _ Hag'),
    (call_getattr _ _ _ _ _ _ Hac').
  unfold update_artist.
  assert (drop_None a
          = <["name" := n]> (<["genre" := g]> (<["country" := c]> ∅))) as ->;
    [|done].
  apply map_eq. intros k. rewrite drop_None_lookup.
  destruct (decide (k = "name")) as [->|?];
    [rewrite Han, lookup_insert_eq; by destruct n|].
  rewrite lookup_insert_ne by done.
  destruct (decide (k = "genre")) as [->|?];
    [rewrite Hag, lookup_insert_eq; by destruct g|].
  rewrite lookup_insert_ne by done.
  destruct (decide (k = "country")) as [->|?];
    [rewrite Hac, lookup_insert_eq; by destruct c|].
  rewrite lookup_insert_ne by done. rewrite lookup_empty.
  rewrite (parse_obj_None_key _ _ _ _ Ha); [done|].
  simpl. intros H. repeat (apply elem_of_cons in H as [?|H]; [done|]).
  by apply elem_of_nil in H.
Qed.

Lemma update_artist_definitions_agree_witness :
  call (One Artist)
    (update_artist 1
       (<["name" := VStr "Nina"]> (<["genre" := VStr "soul"]>
          (<["country" := VStr "FR"]> ∅)))) Examples.db1
  = call (One Artist)
      (update_artist' 1
         (<["name" := VStr "Nina"]> (<["genre" := VStr "soul"]>
            (<["country" := VStr "FR"]> ∅)))) Examples.db1.
Proof.
  apply (update_artist_definitions_agree 1
           (<["name" := VStr "Nina"]> (<["genre" := VStr "soul"]>
              (<["country" := VStr "FR"]> ∅)))).
  - by_vm.
  - by_vm.
  - intros k Hk. simpl in Hk.
    repeat (apply elem_of_cons in Hk as [->|Hk]);
      try (by apply elem_of_nil in Hk).
    + exists (VStr "Nina"). split; [by_vm|done].
    + exists (VStr "soul"). split; [by_vm|done].
    + exists (VStr "FR"). split; [by_vm|done].
Defined.

(** ** Bodies that lack a required field *)

Lemma parse_obj_missing (m : model) (b : obj) (f : field) :
  f ∈ m → f_default f = None → b !! f_name f = None → parse_obj m b = None.
Proof.
  unfold parse_obj. induction m as [|f0 m IH]; intros Hf Hd Hb.
  - by apply elem_of_nil in Hf.
  - fold parse_obj in *. apply elem_of_cons in Hf as [<-|Hf].
    + by rewrite Hb, Hd.
    + rewrite IH by done.
      by destruct (match b !! f_name f0 with Some _ => _ | None => _ end).
Qed.

(** X8.  A body that lacks a field its model requires is refused before the
    handler runs: [POST /<t>/] for the five tables, and [PUT /roles/i], which
    takes a [RoleCreate], are answered 422 and leave the store as it is. *)
Theorem missing_required_field_refused (env : Env) (i : Z) (q : gmap string Z)
    (b : obj) (db : DB) (f : field) :
  f_default f = None → b !! f_name f = None →
  (∀ t, f ∈ create_body t →
        app env (Request POST (resource t) None q b) db
        = (Response 422 (JDetail "Unprocessable Entity"), db))
  ∧ (f ∈ RoleCreate →
     app env (Request PUT "roles" (Some i) q b) db
     = (Response 422 (JDetail "Unprocessable Entity"), db)).
Proof.
  intros Hd Hb. split.
  - intros t Hf. rewrite app_post. unfold call, with_body. simpl r_body.
    by rewrite (parse_obj_missing _ b f Hf Hd Hb).
  - intros Hf. rewrite app_put_roles. unfold call, with_body. simpl r_body.
    by rewrite (parse_obj_missing _ b f Hf Hd Hb).
Qed.

Lemma missing_required_field_refused_witness :
  app Examples.env0
      (Request POST "songs" None ∅
         (<["title" := VStr "Water"]> {[ "duration" := VInt 240 ]}))
      Examples.db1
  = (Response 422 (JDetail "Unprocessable Entity"), Examples.db1)
  ∧ app Examples.env0
        (Request PUT "roles" (Some 1) ∅ {[ "permissions" := VDict [] ]})
        Examples.db1
    = (Response 422 (JDetail "Unprocessable Entity"), Examples.db1).
Proof.
  split.
  - destruct (missing_required_field_refused Examples.env0 0 ∅
                (<["title" := VStr "Water"]> {[ "duration" := VInt 240 ]})
                Examples.db1 (Field "album_id" TInt false None))
      as [Hpost _]; [reflexivity|by_vm|].
    apply (Hpost songs). simpl. by right; right; left.
  - destruct (missing_required_field_refused Examples.env0 1 ∅
                {[ "permissions" := VDict [] ]}
                Examples.db1 (Field "name" TStr false None))
      as [_ Hput]; [reflexivity|by_vm|].
    apply Hput. by left.
Defined.

(** ** Routes that do not exist *)

(** X9.  The routes the application does not have.  Only artists can be
    deleted; albums and songs can neither be updated nor listed.  Each such
    request is answered 405 and leaves the store as it is. *)
Theorem missing_routes (env : Env) (i : Z) (q : gmap string Z) (b : obj)
    (db : DB) (t : tbl) :
  (t ≠ artists →
   app env (Request DELETE (resource t) (Some i) q b) db
   = (Response 405 (JDetail "Method Not Allowed"), db))
  ∧ (t = albums ∨ t = songs →
     app env (Request PUT (resource t) (Some i) q b) db
     = (Response 405 (JDetail "Method Not Allowed"), db)
     ∧ app env (Request GET (resource t) None q b) db
       = (Response 405 (JDetail "Method Not Allowed"), db)).
Proof.
  split.
  - intros Ht. by destruct t.
  - intros [-> | ->]; by split.
Qed.

Lemma missing_routes_witness :
  app Examples.env0 (Request DELETE "roles" (Some 1) ∅ ∅) Examples.db1
  = (Response 405 (JDetail "Method Not Allowed"), Examples.db1)
  ∧ app Examples.env0 (Request PUT "albums" (Some 1) ∅ ∅) Examples.db1
    = (Response 405 (JDetail "Method Not Allowed"), Examples.db1).
Proof.
  split.
  - by apply (proj1 (missing_routes Examples.env0 1 ∅ ∅ Examples.db1 roles)).
  - apply (proj2 (missing_routes Examples.env0 1 ∅ ∅ Examples.db1 albums)).
    by left.
Defined.

(** ** Requests that change nothing *)

Lemma quiet_same (db : DB) (r : exn + retval) : quiet db (r, db).
Proof. by intros _. Qed.

Lemma run_getattr_quiet (o : obj) (a : string) (k : value → M retval)
    (db : DB) :
  (∀ v, quiet db (run_request (k v) db)) →
  quiet db (run_request (x ← getattr o a; k x) db).
Proof.
  intros H. destruct (o !! a) as [v|] eqn:Ho.
  - by rewrite (run_getattr _ _ _ _ _ Ho).
  - rewrite run_getattr_None by done. apply quiet_same.
Qed.

Lemma run_hash_quiet (env : Env) (v : value) (k : value → M retval) (db : DB) :
  (∀ w, quiet db (run_request (k w) db)) →
  quiet db
    (run_request
       (x ← match v with
            | VStr p => mret (VStr (hashpw env p (gensalt env)))
            | _ => raise (AttributeError "encode")
            end; k x) db).
Proof. intros H. destruct v; try apply quiet_same. apply H. Qed.

Lemma run_insert_quiet (q : stmt obj) (db : DB) :
  quiet db (run_request (result ← execute q; commit;; mret (Row result)) db).
Proof.
  rewrite run_insert. destruct (q db) as [e|[r db']]; [apply quiet_same|].
  by intros [].
Qed.

Lemma sql_update_None (t : tbl) (i : Z) (vals : obj) (cols : list string)
    (db db' : DB) :
  sql_update t i vals cols db = inr (None, db') → db' = db.
Proof.
  unfold sql_update. destruct (negb _); [done|].
  destruct (filter _ _); [by intros [= ->]|].
  by destruct (constraints_ok _ _ _).
Qed.

Lemma run_update_quiet (t : tbl) (i : Z) (vals : obj) (cols : list string)
    (detail : string) (db : DB) :
  quiet db (run_request (result ← execute (sql_update t i vals cols);
                         commit;; or_404 detail result) db).
Proof.
  rewrite run_write.
  destruct (sql_update t i vals cols db) as [e|[[r|] db']] eqn:Hq.
  - apply quiet_same.
  - by intros [].
  - intros _. simpl. by eapply sql_update_None.
Qed.

Lemma run_read_quiet (q : stmt (option obj)) (detail : string) (db : DB) :
  quiet db (run_request (result ← execute q; or_404 detail result) db).
Proof.
  rewrite run_read. destruct (q db) as [e|[[r|] db']]; apply quiet_same.
Qed.

Lemma with_body_quiet (m : model) (k : obj → M retval) (req : request)
    (db : DB) :
  (∀ u, quiet db (run_request (k u) db)) →
  quiet db (run_request (with_body m k req) db).
Proof.
  intros H. unfold with_body. destruct (parse_obj m (r_body req)); [apply H|].
  apply quiet_same.
Qed.

Lemma with_id_quiet (k : Z → M retval) (req : request) (db : DB) :
  (∀ i, quiet db (run_request (k i) db)) →
  quiet db (run_request (with_id k req) db).
Proof.
  intros H. unfold with_id. destruct (r_id req); [apply H|apply quiet_same].
Qed.

Lemma run_delete_quiet (i : Z) (db : DB) :
  quiet db (run_request (delete_artist i) db).
Proof.
  rewrite run_delete. destruct (lookup_row artists i db); [|apply quiet_same].
  destruct (referenced db artists i); [apply quiet_same|]. by intros [].
Qed.

Lemma run_list_quiet (t : tbl) (limit offset : Z) (db : DB) :
  quiet db (run_request (result ← execute (sql_select_page t limit offset);
                         mret (Rows result)) db).
Proof. rewrite run_list_page. destruct (_ || _); apply quiet_same. Qed.

Ltac quiet_step :=
  lazymatch goal with
  | |- quiet _ (run_request (with_id _ _) _) => apply with_id_quiet; intros ?
  | |- quiet _ (run_request (with_body _ _ _) _) =>
      apply with_body_quiet; intros ?
  | |- quiet _ (run_request (mbind _ (getattr _ _)) _) =>
      apply run_getattr_quiet; intros ?
  | |- quiet _ (run_request (mbind _ (match _ with VStr _ => _ | _ => _ end)) _) =>
      apply run_hash_quiet; intros ?
  | |- quiet _ (run_request (mbind _ (execute (sql_select_by_id _ _))) _) =>
      apply run_read_quiet
  | |- quiet _ (run_request (mbind _ (execute (sql_insert _ _ _ _))) _) =>
      apply run_insert_quiet
  | |- quiet _ (run_request (mbind _ (execute (sql_update _ _ _ _))) _) =>
      apply run_update_quiet
  | |- quiet _ (run_request (mbind _ (execute (sql_select_page _ _ _))) _) =>
      apply run_list_quiet
  | |- quiet _ (run_request (delete_artist _) _) => apply run_delete_quiet
  | |- quiet _ (run_request get_roles _) => apply quiet_same
  end.

Lemma routes_quiet :
  Forall (λ rt, ∀ env req db,
            quiet db (run_request (rt_endpoint rt env req) db)) routes.
Proof.
  unfold routes.
  repeat apply Forall_cons_2; try apply Forall_nil_2;
    intros env req db; simpl rt_endpoint;
    unfold create_role, get_role, update_role, create_user, get_users, get_user,
      update_user, create_artist, get_artists, get_artist, update_artist,
      create_album, get_album, update_artist', create_song, get_song;
    repeat quiet_step.
Qed.

Lemma respond_refusal (rm : response_model) (r : exn + retval) :
  status (respond rm r) ≠ 200 → status (respond rm r) ≠ 500 → refusal r.
Proof.
  destruct r as [e|v]; [by destruct e|].
  destruct rm as [m|m|], v as [r|l|d]; simpl; try done.
  - by destruct (parse_obj m r).
  - by destruct (parse_obj m d).
  - by destruct (mapM (parse_obj m) l).
Qed.

(** X10.  Only an answer 200 or 500 can come with a changed store: every
    request that is answered with another status (404, 405, 422) leaves the
    store exactly as it was. *)
Theorem refused_requests_change_nothing (env : Env) (req : request) (db : DB) :
  status (app env req db).1 ≠ 200 → status (app env req db).1 ≠ 500 →
  (app env req db).2 = db.
Proof.
  destruct (app_cases env req db) as [(rt & Hin & _ & ->)| ->]; [|done].
  pose proof routes_quiet as Hq. rewrite Forall_forall in Hq.
  specialize (Hq rt Hin env req db). unfold call.
  destruct (run_request (rt_endpoint rt env req) db) as [r d]. simpl.
  intros H200 H500. apply Hq. by eapply respond_refusal.
Qed.

Lemma refused_requests_change_nothing_witness :
  (app Examples.env0 (Request PUT "users" (Some 9) ∅ ∅) Examples.db1).2
  = Examples.db1.
Proof.
  apply refused_requests_change_nothing.
  - by vm_compute.
  - by vm_compute.
Defined.

Lemma routes_get_read_only :
  Forall (λ rt, rt_method rt = GET →
            ∀ env req db, (run_request (rt_endpoint rt env req) db).2 = db)
    routes.
Proof.
  unfold routes.
  repeat apply Forall_cons_2; try apply Forall_nil_2;
    intros Hm env req db; simpl in Hm; try done; clear Hm; simpl rt_endpoint;
    unfold with_id;
    repeat match goal with
      | |- context [r_id req] => destruct (r_id req)
      end;
    try done;
    unfold get_role, get_user, get_artist, get_album, get_song, get_users,
      get_artists;
    first [ rewrite run_read; by destruct (execute _ _ _), (sql_select_by_id _ _ _) as [?|[[?|] ?]]
          | rewrite run_read; by destruct (sql_select_by_id _ _ _) as [?|[[?|] ?]]
          | rewrite run_list_page; by destruct (_ || _) ].
Qed.

(** X11.  [GET] is safe: no [GET] request, whatever its path, query and
    answer, changes the store. *)
Theorem get_changes_nothing (env : Env) (req : request) (db : DB) :
  r_method req = GET → (app env req db).2 = db.
Proof.
  intros Hm.
  destruct (app_cases env req db) as [(rt & Hin & Hrt & ->)| ->]; [|done].
  rewrite call_snd. pose proof routes_get_read_only as H.
  rewrite Forall_forall in H. apply (H rt Hin). by rewrite Hrt.
Qed.

Lemma get_changes_nothing_witness :
  (app Examples.env0 (Request GET "users" None {[ "limit" := -1 ]} ∅)
       Examples.db1).2
  = Examples.db1.
Proof. by apply get_changes_nothing. Defined.

(** ** Writes that refer to a missing row *)







(** ** The statement behind [POST] *)

Ltac same_map Hd :=
  let k := fresh "k" in
  let Hin := fresh "Hin" in
  apply map_eq; intros k;
  repeat (lazymatch goal with
          | |- <[?a := _]> _ !! k = _ =>
              destruct (decide (k = a)) as [->|?];
              [rewrite lookup_insert_eq; congruence
              |rewrite lookup_insert_ne by done]
          end);
  rewrite lookup_empty; symmetry; apply not_elem_of_dom; rewrite Hd;
  rewrite elem_of_list_to_set; simpl; intros Hin;
  repeat (apply elem_of_cons in Hin as [?|Hin]; [done|]);
  by apply elem_of_nil in Hin.

(** [POST /<t>/] for roles, artists, albums and songs: the body is refused
    (422), or the insert statement runs with the fields of the instance. *)
Lemma app_post_insert (env : Env) (t : tbl) (q : gmap string Z) (b : obj)
    (db : DB) :
  t ≠ users →
  app env (Request POST (resource t) None q b) db =
    match parse_obj (create_body t) b with
    | None => (Response 422 (JDetail "Unprocessable Entity"), db)
    | Some u =>
        call (One (record_model t))
             (result ← execute (sql_insert (utcnow env) t u (returning t));
              commit;; mret (Row result)) db
    end.
Proof.
  intros Ht. rewrite app_post. unfold with_body. simpl r_body.
  destruct (parse_obj (create_body t) b) as [u|] eqn:Hu; [|done].
  pose proof (parse_obj_dom _ _ _ Hu) as Hd.
  destruct t; [|done| | |]; simpl create_body in *; simpl returning.
  - unfold create_role. read_attr Hd u "name". read_attr Hd u "permissions".
    assert (<["name" := v]> (<["permissions" := v0]> ∅) = u) as ->; [|done].
    same_map Hd.
  - unfold create_artist. read_attr Hd u "name". read_attr Hd u "genre".
    read_attr Hd u "country".
    assert (<["name" := v]> (<["genre" := v0]> (<["country" := v1]> ∅)) = u)
      as ->; [|done].
    same_map Hd.
  - unfold create_album. read_attr Hd u "title". read_attr Hd u "release_date".
    read_attr Hd u "artist_id".
    assert (<["title" := v]> (<["release_date" := v0]>
              (<["artist_id" := v1]> ∅)) = u) as ->; [|done].
    same_map Hd.
  - unfold create_song. read_attr Hd u "title". read_attr Hd u "duration".
    read_attr Hd u "album_id". read_attr Hd u "artist_id".
    assert (<["title" := v]> (<["duration" := v0]> (<["album_id" := v1]>
              (<["artist_id" := v2]> ∅))) = u) as ->; [|done].
    same_map Hd.
Qed.

Lemma parse_obj_accepts (m : model) (b u : obj) :
  parse_obj m b = Some u → NoDup (field_names m) →
  Forall (λ f, from_option (accepts f) true (f_default f) = true) m →
  ∀ f, f ∈ m →
       ∃ v, u !! f_name f = Some v ∧ accepts f v = true
            ∧ (b !! f_name f = Some v
               ∨ (b !! f_name f = None ∧ f_default f = Some v)).
Proof.
  unfold parse_obj. revert u.
  induction m as [|f0 m IH]; intros u Hu Hnd Hdef f Hf.
  - by apply elem_of_nil in Hf.
  - fold parse_obj in *. simpl in Hnd. apply NoDup_cons in Hnd as [Hf0 Hnd].
    apply Forall_cons in Hdef as [Hd0 Hdef].
    destruct (parse_obj m b) as [o|] eqn:Ho.
    2:{ destruct (b !! f_name f0) as [w|]; simpl in Hu;
          [destruct (accepts f0 w)|destruct (f_default f0)]; simpl in Hu; done. }
    assert (∃ v0, u = <[f_name f0 := v0]> o ∧ accepts f0 v0 = true
                  ∧ (b !! f_name f0 = Some v0
                     ∨ (b !! f_name f0 = None ∧ f_default f0 = Some v0)))
      as (v0 & -> & Hacc0 & Hsrc0).
    { destruct (b !! f_name f0) as [w|] eqn:Hw; simpl in Hu.
      - destruct (accepts f0 w) eqn:Hacc; simpl in Hu; [|done]. simplify_eq.
        exists w. eauto.
      - destruct (f_default f0) as [d|] eqn:Hd; simpl in Hu; [|done].
        simplify_eq. exists d. simpl in Hd0. eauto. }
    apply elem_of_cons in Hf as [->|Hf].
    + exists v0. by rewrite lookup_insert_eq.
    + destruct (IH o eq_refl Hnd Hdef f Hf) as (v & Hv & Hacc & Hsrc).
      exists v. rewrite lookup_insert_ne; [done|].
      intros Heq. apply Hf0. rewrite Heq. by apply list_elem_of_fmap_2.
Qed.

Lemma create_body_regular (t : tbl) :
  NoDup (field_names (create_body t))
  ∧ Forall (λ f, from_option (accepts f) true (f_default f) = true)
           (create_body t).
Proof.
  split.
  - destruct t; simpl;
      repeat (apply NoDup_cons; split; [apply not_in_list; reflexivity|]);
      apply NoDup_nil_2.
  - destruct t; repeat constructor.
Qed.


Lemma post_users_stores_nothing (env : Env) (q : gmap string Z) (b : obj)
    (db : DB) :
  status (app env (Request POST "users" None q b) db).1 ≠ 200
  ∧ (app env (Request POST "users" None q b) db).2 = db.
Proof.
  rewrite (app_post env users). unfold with_body. simpl r_body.
  simpl create_body.
  destruct (parse_obj UserCreate b) as [u|] eqn:Hu; [|done].
  unfold create_user. rewrite call_getattr_None; [done|].
  apply (parse_obj_None_key _ _ _ _ Hu). by apply not_in_list.
Qed.

(** What a [POST] that is answered with a record has done to the store. *)
Lemma post_ok_inv (env : Env) (t : tbl) (q : gmap string Z) (b rec : obj)
    (db : DB) :
  (app env (Request POST (resource t) None q b) db).1
  = Response 200 (JRecord rec) →
  ∃ u,
    t ≠ users
    ∧ parse_obj (create_body t) b = Some u
    ∧ lookup_row t (t_seq (table_of t db) + 1) db = None
    ∧ parse_obj (record_model t)
        (new_row (utcnow env) t (t_seq (table_of t db) + 1) u) = Some rec
    ∧ (app env (Request POST (resource t) None q b) db).2
      = with_table t
          (Table (t_rows (table_of t db)
                  ++ [new_row (utcnow env) t (t_seq (table_of t db) + 1) u])
                 (t_seq (table_of t db) + 1)) db.
Proof.
  intros H.
  assert (t ≠ users) as Ht.
  { intros ->. destruct (post_users_stores_nothing env q b db) as [Hs _].
    simpl resource in H. by rewrite H in Hs. }
  rewrite app_post_insert in * by done.
  destruct (parse_obj (create_body t) b) as [u|] eqn:Hu; [|done].
  exists u. unfold call in *. rewrite run_insert in *.
  destruct (sql_insert _ _ _ _ _) as [e|[r db']] eqn:Hins; [by destruct e|].
  apply sql_insert_inv in Hins as (-> & -> & Hnew). simpl in *.
  rewrite parse_obj_project in H by (by destruct t).
  destruct (parse_obj (record_model t) _) as [o|] eqn:Ho; [|done].
  by simplify_eq.
Qed.

(** X13.  A field the create body leaves out is stored and returned with
    the default of its model: the record of a created artist has [genre] and
    [country] null when the body has none, the record of a created role has
    the empty dict for [permissions]. *)
Theorem create_fills_defaults (env : Env) (t : tbl) (q : gmap string Z)
    (b rec : obj) (db : DB) (f : field) (d : value) :
  (app env (Request POST (resource t) None q b) db).1
  = Response 200 (JRecord rec) →
  f ∈ create_body t → f_default f = Some d → b !! f_name f = None →
  f_name f ∈ field_names (record_model t) →
  rec !! f_name f = Some d.
Proof.
  intros H Hf Hd Hb Hrec.
  destruct (post_ok_inv env t q b rec db H) as (u & Ht & Hu & _ & Hp & _).
  destruct (create_body_regular t) as [Hnd Hdef].
  destruct (parse_obj_accepts _ _ _ Hu Hnd Hdef f Hf)
    as (v & Hv & _ & [Hsup|[_ Hdv]]); [congruence|].
  rewrite Hd in Hdv. simplify_eq.
  apply (parse_obj_supplied _ _ _ _ _ Hp Hrec).
  apply new_row_supplied; [| |done].
  - destruct t; [|done| | |]; simpl in Hf;
      repeat (apply elem_of_cons in Hf as [->|Hf]);
      try (by apply elem_of_nil in Hf); done.
  - destruct t; [|done| | |]; simpl in Hf;
      repeat (apply elem_of_cons in Hf as [->|Hf]);
      try (by apply elem_of_nil in Hf);
      apply list_elem_of_In; simpl; tauto.
Qed.

Lemma create_fills_defaults_witness :
  Examples.artist_row 3 "Tinariwen" VNone (VStr "ML") !! "genre" = Some VNone.
Proof.
  apply (create_fills_defaults Examples.env0 artists ∅
           (<["name" := VStr "Tinariwen"]> {[ "country" := VStr "ML" ]})
           (Examples.artist_row 3 "Tinariwen" VNone (VStr "ML"))
           Examples.db1 (Field "genre" TStr true (Some VNone)) VNone).
  - by_vm.
  - simpl. by right; left.
  - reflexivity.
  - by_vm.
  - simpl. by right; right; left.
Defined.

(** X14.  A create that is answered with a record has appended exactly one
    row to its table, under the next value of the table's sequence, which is
    the id of the record; the rows that were there, the other tables and
    their sequences are as they were. *)
Theorem create_appends_one_row (env : Env) (t : tbl) (q : gmap string Z)
    (b rec : obj) (db : DB) :
  (app env (Request POST (resource t) None q b) db).1
  = Response 200 (JRecord rec) →
  rec !! "id" = Some (VInt (t_seq (table_of t db) + 1))
  ∧ (∃ row : obj,
       row !! "id" = Some (VInt (t_seq (table_of t db) + 1))
       ∧ t_rows (table_of t (app env (Request POST (resource t) None q b) db).2)
         = (t_rows (table_of t db) ++ [row])%list)
  ∧ t_seq (table_of t (app env (Request POST (resource t) None q b) db).2)
    = t_seq (table_of t db) + 1
  ∧ ∀ t', t' ≠ t →
          table_of t' (app env (Request POST (resource t) None q b) db).2
          = table_of t' db.
Proof.
  intros H.
  destruct (post_ok_inv env t q b rec db H) as (u & Ht & Hu & _ & Hp & ->).
  split; [|split; [|split]].
  - apply (parse_obj_supplied _ _ _ _ _ Hp); [by destruct t; left|].
    apply new_row_id.
  - eexists. split; [apply new_row_id|]. by rewrite table_of_with_table.
  - by rewrite table_of_with_table.
  - intros t' Ht'. by apply table_of_with_table_ne.
Qed.

Lemma create_appends_one_row_witness :
  Examples.role_row 2 "guest" [] !! "id"
  = Some (VInt (t_seq (table_of roles Examples.db1) + 1)).
Proof.
  apply (create_appends_one_row Examples.env0 roles ∅
           {[ "name" := VStr "guest" ]} (Examples.role_row 2 "guest" [])
           Examples.db1).
  by_vm.
Defined.



(** ** Pages *)

(** The outcomes of [GET /users/] and [GET /artists/]. *)
Lemma list_outcome (env : Env) (t : tbl) (q : gmap string Z) (b : obj)
    (db : DB) :
  t = users ∨ t = artists →
  app env (Request GET (resource t) None q b) db =
    if (default 10 (q !! "limit") <? 0) || (default 0 (q !! "offset") <? 0)
    then (Response 500 (JDetail "Internal Server Error"), db)
    else (match mapM (parse_obj (record_model t)) (page t q db) with
          | Some recs => Response 200 (JList recs)
          | None => Response 500 (JDetail "Internal Server Error")
          end, db).
Proof.
  intros [-> | ->]; simpl resource.
  - rewrite app_list_users. unfold call, get_users. rewrite run_list_page.
    by destruct (_ || _).
  - rewrite app_list_artists. unfold call, get_artists. rewrite run_list_page.
    by destruct (_ || _).
Qed.

Lemma list_ok_inv (env : Env) (t : tbl) (q : gmap string Z) (b : obj)
    (db : DB) (recs : list obj) :
  t = users ∨ t = artists →
  (app env (Request GET (resource t) None q b) db).1
  = Response 200 (JList recs) →
  0 ≤ default 10 (q !! "limit") ∧ 0 ≤ default 0 (q !! "offset")
  ∧ Forall2 (λ r rec, parse_obj (record_model t) r = Some rec)
            (page t q db) recs.
Proof.
  intros Ht. rewrite list_outcome by done.
  destruct (default 10 (q !! "limit") <? 0) eqn:Hl; [done|].
  destruct (default 0 (q !! "offset") <? 0) eqn:Ho; [done|]. simpl.
  destruct (mapM _ _) as [rs|] eqn:Hm; [|done]. intros [= ->].
  apply Z.ltb_ge in Hl, Ho. by apply mapM_Some in Hm.
Qed.

(** X16.  A list response holds at most [limit] records, one for each row of
    its page and in the order of the rows. *)
Theorem list_at_most_limit (env : Env) (t : tbl) (q : gmap string Z) (b : obj)
    (db : DB) (recs : list obj) :
  t = users ∨ t = artists →
  (app env (Request GET (resource t) None q b) db).1
  = Response 200 (JList recs) →
  Z.of_nat (length recs) ≤ default 10 (q !! "limit")
  ∧ length recs = length (page t q db)
  ∧ ∀ j rec, recs !! j = Some rec →
             ∃ r, page t q db !! j = Some r
                  ∧ parse_obj (record_model t) r = Some rec.
Proof.
  intros Ht H. destruct (list_ok_inv env t q b db recs Ht H) as (Hl & Ho & Hrecs).
  pose proof (Forall2_length _ _ _ Hrecs) as Hlen.
  split; [|split; [done|]].
  - rewrite <- Hlen. unfold page. rewrite length_take. lia.
  - intros j rec Hj. by apply (Forall2_lookup_r _ _ _ _ _ Hrecs Hj).
Qed.

Lemma list_at_most_limit_witness :
  Z.of_nat (length [Examples.user_record 2 "bob@example.org" "bob" 1600000500
                      (VInt 1)])
  ≤ default 10 ((<["limit" := 1]> ∅ : gmap string Z) !! "limit").
Proof.
  apply (list_at_most_limit Examples.env0 users (<["limit" := 1]> ∅) ∅
           Examples.db_unordered).
  - by left.
  - by_vm.
Defined.



(** ** What a request writes *)

Lemma run_delete_writes (i : Z) (db : DB) :
  writes db (run_request (delete_artist i) db).2.
Proof.
  unfold run_request, delete_artist, mbind, M_bind, execute, commit. simpl.
  destruct (sql_delete artists i db) as [e|[n db']] eqn:Hq; simpl.
  - apply writes_nothing.
  - destruct (n =? 0); simpl; by eapply writes_delete.
Qed.

Lemma run_hash_writes {A} (env : Env) (v : value) (k : value → M A) (db : DB) :
  (∀ w, writes db (run_request (k w) db).2) →
  writes db
    (run_request
       (x ← match v with
            | VStr p => mret (VStr (hashpw env p (gensalt env)))
            | _ => raise (AttributeError "encode")
            end; k x) db).2.
Proof. intros H. destruct v; try apply writes_nothing. apply H. Qed.

Lemma routes_write :
  Forall (λ rt, ∀ env req db,
            writes db (run_request (rt_endpoint rt env req) db).2) routes.
Proof.
  unfold routes.
  repeat apply Forall_cons_2; try apply Forall_nil_2;
    intros env req db; simpl rt_endpoint;
    unfold with_id, with_body;
    repeat match goal with
      | |- context [r_id req] => destruct (r_id req)
      | |- context [parse_obj ?m (r_body req)] =>
          let Hu := fresh "Hu" in
          destruct (parse_obj m (r_body req)) as [u|] eqn:Hu
      end;
    try apply writes_nothing;
    unfold create_role, get_role, update_role, create_user, get_users, get_user,
      update_user, create_artist, get_artists, get_artist, update_artist,
      create_album, get_album, update_artist', create_song, get_song, get_roles.
  all: repeat lazymatch goal with
    | |- writes _ (run_request (mbind _ (getattr ?o ?a)) _).2 =>
        let Ho := fresh "Ho" in
        destruct (o !! a) eqn:Ho;
        [rewrite (run_getattr _ _ _ _ _ Ho)
        |rewrite run_getattr_None by done; apply writes_nothing]
    | |- writes _ (run_request (mbind _ (match ?v with VStr _ => _ | _ => _ end)) _).2 =>
        apply run_hash_writes; intros ?
    end.
  all: try (rewrite run_read;
            by destruct (sql_select_by_id _ _ _) as [?|[[?|] ?]];
            apply writes_nothing).
  all: try (rewrite run_list_page; by destruct (_ || _); apply writes_nothing).
  all: try (rewrite run_insert;
            lazymatch goal with
            | |- context [sql_insert ?n ?t ?v ?r ?db] =>
                let Hq := fresh "Hq" in
                destruct (sql_insert n t v r db) as [?|[? ?]] eqn:Hq; simpl;
                [apply writes_nothing|by eapply writes_insert]
            end).
  all: try apply run_delete_writes.
  all: rewrite run_write;
    lazymatch goal with
    | |- context [sql_update ?t ?i ?v ?r ?db] =>
        let Hq := fresh "Hq" in
        destruct (sql_update t i v r db) as [?|[[?|] ?]] eqn:Hq; simpl;
        [apply writes_nothing
        |eapply writes_update; [|exact Hq]
        |eapply writes_update; [|exact Hq]]
    end.
  all: try (rewrite !lookup_insert_ne by done; apply lookup_empty).
  all: try (by eapply (frozen_not_assigned users UserUpdate); [| |left]).
  all: try (by eapply (frozen_not_assigned artists ArtistUpdate); [| |left]).
Qed.

Lemma app_writes (env : Env) (req : request) (db : DB) :
  writes db (app env req db).2.
Proof.
  destruct (app_cases env req db) as [(rt & Hin & _ & ->)| ->].
  - rewrite call_snd. pose proof routes_write as H.
    rewrite Forall_forall in H. apply (H rt Hin).
  - apply writes_nothing.
Qed.

Lemma run_writes (env : Env) (reqs : list request) (db : DB) (P : DB → Prop) :
  (∀ d d', P d → writes d d' → P d') → P db → P (run env reqs db).
Proof.
  intros Hstep. revert db. induction reqs as [|req reqs IH]; intros db Hdb.
  - done.
  - simpl. apply IH. eapply Hstep; [done|]. apply app_writes.
Qed.

(** ** Primary keys *)

Lemma has_id_row_id (n : Z) (r : obj) :
  has_id n r = true ↔ row_id r = Some n.
Proof.
  unfold has_id, col_is, row_id. destruct (r !! "id") as [[]|]; try done.
  rewrite Z.eqb_eq. split; congruence.
Qed.

Lemma ids_with_table (t : tbl) (x : table) (db : DB) :
  ids t (with_table t x db) = omap row_id (t_rows x).
Proof. unfold ids. by rewrite table_of_with_table. Qed.

Lemma ids_with_table_ne (t t' : tbl) (x : table) (db : DB) :
  t ≠ t' → ids t' (with_table t x db) = ids t' db.
Proof. intros H. unfold ids. by rewrite table_of_with_table_ne. Qed.

Lemma row_id_merge (i : Z) (vals r : obj) :
  vals !! "id" = None → row_id (merge_at i vals r) = row_id r.
Proof.
  intros H. unfold merge_at, row_id. destruct (has_id i r); [|done].
  by rewrite lookup_union_r.
Qed.

Lemma omap_row_id_merge (i : Z) (vals : obj) (l : list obj) :
  vals !! "id" = None → omap row_id (merge_at i vals <$> l) = omap row_id l.
Proof.
  intros H. induction l as [|r l IH]; [done|]. csimpl.
  by rewrite row_id_merge, IH.
Qed.

Lemma omap_filter_sublist {A B} (f : A → option B) (P : A → Prop)
    `{!∀ x, Decision (P x)} (l : list A) :
  omap f (filter P l) `sublist_of` omap f l.
Proof.
  induction l as [|x l IH]; [done|]. rewrite filter_cons.
  destruct (decide (P x)); csimpl; destruct (f x); try done.
  - by apply sublist_skip.
  - by apply sublist_cons.
Qed.

Lemma keys_ok_table (t : tbl) (x : table) (db : DB) :
  keys_ok db → NoDup (omap row_id (t_rows x)) →
  Forall (λ n, n ≤ t_seq x) (omap row_id (t_rows x)) →
  keys_ok (with_table t x db).
Proof.
  intros H Hnd Hle t'. destruct (decide (t = t')) as [<-|Hne].
  - by rewrite ids_with_table, table_of_with_table.
  - rewrite ids_with_table_ne, table_of_with_table_ne by done. apply H.
Qed.

Lemma writes_keys_ok (db db' : DB) : keys_ok db → writes db db' → keys_ok db'.
Proof.
  intros H Hw.
  destruct Hw as [|now t vals ret row db' Hq|t i vals ret row db' Hid Hq
                 |t i n db' Hq].
  - done.
  - apply sql_insert_inv in Hq as (_ & -> & _). destruct (H t) as [Hnd Hle].
    apply keys_ok_table; [done|..]; simpl; rewrite omap_app; csimpl;
      unfold row_id at 2; rewrite new_row_id; simpl.
    + apply NoDup_app. split; [done|]. split; [|apply NoDup_singleton].
      intros n Hn ->%list_elem_of_singleton.
      rewrite Forall_forall in Hle. specialize (Hle _ Hn). simpl in Hle. lia.
    + apply Forall_app. split.
      * eapply Forall_impl; [exact Hle|]. simpl. intros; lia.
      * apply Forall_singleton. lia.
  - unfold sql_update in Hq. destruct (negb _); [done|].
    destruct (filter _ _); [by simplify_eq|].
    destruct (constraints_ok _ _ _); [|done]. simplify_eq.
    destruct (H t) as [Hnd Hle].
    apply keys_ok_table; [done|..]; simpl; by rewrite omap_row_id_merge.
  - unfold sql_delete in Hq. destruct (filter _ _) eqn:Hf; [by simplify_eq|].
    destruct (referenced _ _ _); [done|]. simplify_eq.
    destruct (H t) as [Hnd Hle].
    apply keys_ok_table; [done|..]; simpl.
    + eapply sublist_NoDup; [exact Hnd|]. apply omap_filter_sublist.
    + rewrite Forall_forall in *. intros n Hn. apply Hle.
      eapply elem_of_sublist; [exact Hn|]. apply omap_filter_sublist.
Qed.

Lemma writes_seq (db db' : DB) (t : tbl) :
  writes db db' → t_seq (table_of t db) ≤ t_seq (table_of t db').
Proof.
  intros Hw.
  destruct Hw as [|now t0 vals ret row db' Hq|t0 i vals ret row db' Hid Hq
                 |t0 i n db' Hq].
  - done.
  - apply sql_insert_inv in Hq as (_ & -> & _).
    destruct (decide (t0 = t)) as [->|Hne].
    + rewrite table_of_with_table. simpl. lia.
    + by rewrite table_of_with_table_ne.
  - unfold sql_update in Hq. destruct (negb _); [done|].
    destruct (filter _ _); [by simplify_eq|].
    destruct (constraints_ok _ _ _); [|done]. simplify_eq.
    destruct (decide (t0 = t)) as [->|Hne].
    + by rewrite table_of_with_table.
    + by rewrite table_of_with_table_ne.
  - unfold sql_delete in Hq. destruct (filter _ _) eqn:Hf; [by simplify_eq|].
    destruct (referenced _ _ _); [done|]. simplify_eq.
    destruct (decide (t0 = t)) as [->|Hne].
    + by rewrite table_of_with_table.
    + by rewrite table_of_with_table_ne.
Qed.

(** X18.  Primary keys stay sound under every series of requests: from a
    store where no two rows of a table share an id and no id is ahead of the
    sequence of its table, no series of requests, whatever their outcomes,
    leads to a store where that fails. *)
Theorem requests_keep_keys (env : Env) (reqs : list request) (db : DB) :
  keys_ok db → keys_ok (run env reqs db).
Proof.
  intros H. apply (run_writes env reqs db keys_ok); [|done].
  intros d d'. apply writes_keys_ok.
Qed.

Ltac keys_ok_closed :=
  let t := fresh "t" in
  intros t; split; destruct t; refine (bool_decide_unpack _ _); by vm_compute.

Lemma requests_keep_keys_witness :
  keys_ok
    (run Examples.env0
       [Request POST "roles" None ∅ {[ "name" := VStr "guest" ]};
        Request DELETE "artists" (Some 1) ∅ ∅;
        Request PUT "users" (Some 1) ∅ {[ "username" := VStr "anne" ]}]
       Examples.db1).
Proof.
  apply requests_keep_keys. keys_ok_closed.
Defined.

(** X19.  An id is given out once.  When the store holds a row of [t] under
    the id [i], a create on [t] that returns a record after any series of
    requests (the deletion of the row among them) gives the record an id
    above [i]. *)
Theorem ids_not_reused (env : Env) (t : tbl) (i : Z) (row : obj)
    (reqs : list request) (q : gmap string Z) (b rec : obj) (db : DB) :
  keys_ok db → lookup_row t i db = Some row →
  (app env (Request POST (resource t) None q b) (run env reqs db)).1
  = Response 200 (JRecord rec) →
  ∃ j, rec !! "id" = Some (VInt j) ∧ i < j.
Proof.
  intros Hk Hrow H.
  destruct (post_ok_inv env t q b rec _ H) as (u & Ht & Hu & _ & Hp & _).
  exists (t_seq (table_of t (run env reqs db)) + 1). split.
  - apply (parse_obj_supplied _ _ _ _ _ Hp); [by destruct t; left|].
    apply new_row_id.
  - assert (i ≤ t_seq (table_of t db)) as Hi.
    { destruct (Hk t) as [_ Hle]. rewrite Forall_forall in Hle. apply Hle.
      apply list_elem_of_omap. exists row.
      apply lookup_row_Some in Hrow as [Hin Hid]. split; [done|].
      unfold row_id. by rewrite Hid. }
    assert (t_seq (table_of t db) ≤ t_seq (table_of t (run env reqs db))).
    { apply (run_writes env reqs db
               (λ d, t_seq (table_of t db) ≤ t_seq (table_of t d))); [|lia].
      intros d d' Hd Hw. pose proof (writes_seq d d' t Hw). lia. }
    lia.
Qed.

Lemma ids_not_reused_witness :
  ∃ j, Examples.artist_row 3 "Tinariwen" VNone (VStr "ML") !! "id"
       = Some (VInt j) ∧ 1 < j.
Proof.
  apply (ids_not_reused Examples.env0 artists 1
           (Examples.artist_row 1 "Nina" (VStr "jazz") (VStr "US"))
           [Request DELETE "artists" (Some 1) ∅ ∅] ∅
           (<["name" := VStr "Tinariwen"]> {[ "country" := VStr "ML" ]})
           (Examples.artist_row 3 "Tinariwen" VNone (VStr "ML"))
           Examples.db1).
  - keys_ok_closed.
  - by_vm.
  - by_vm.
Defined.

(** ** Foreign keys *)

Lemma existsb_elem {A} (f : A → bool) (l : list A) :
  existsb f l = true ↔ ∃ x, x ∈ l ∧ f x = true.
Proof.
  rewrite existsb_exists. by setoid_rewrite list_elem_of_In.
Qed.

(** A foreign key that holds in [db] holds in every store that has a row for
    every id that [db] has a row for. *)
Lemma fk_ok_mono (db db' : DB) (c : column) (v : value) :
  (∀ t n, existsb (has_id n) (t_rows (table_of t db)) = true →
          existsb (has_id n) (t_rows (table_of t db')) = true) →
  fk_ok db c v = true → fk_ok db' c v = true.
Proof.
  intros H. unfold fk_ok. destruct (c_fk c) as [t'|]; [|done].
  destruct v; try done. apply H.
Qed.

Lemma row_refs_ok_mono (db db' : DB) (t : tbl) (r : obj) :
  (∀ c v, fk_ok db c v = true → fk_ok db' c v = true) →
  row_refs_ok db t r = true → row_refs_ok db' t r = true.
Proof.
  intros H. unfold row_refs_ok. rewrite !forallb_forall. intros Hr c Hc.
  specialize (Hr c Hc). destruct (r !! c_name c) as [v|]; [|done]. simpl in *.
  by apply H.
Qed.

Lemma constraints_row_refs_ok (db : DB) (t : tbl) (r : obj) :
  constraints_ok db t r = true → row_refs_ok db t r = true.
Proof.
  unfold constraints_ok, row_refs_ok. rewrite !forallb_forall. intros Hr c Hc.
  specialize (Hr c Hc). destruct (r !! c_name c) as [v|]; [|done]. simpl in *.
  unfold column_ok in Hr. by apply andb_prop in Hr as [_ ?].
Qed.

Lemma row_refs_ok_union (db : DB) (t : tbl) (vals r : obj) :
  constraints_ok db t vals = true → row_refs_ok db t r = true →
  row_refs_ok db t (vals ∪ r) = true.
Proof.
  unfold constraints_ok, row_refs_ok. rewrite !forallb_forall.
  intros Hv Hr c Hc. specialize (Hv c Hc). specialize (Hr c Hc).
  destruct (vals !! c_name c) as [v|] eqn:Hvc.
  - rewrite (lookup_union_Some_l _ _ _ _ Hvc). simpl in *.
    unfold column_ok in Hv. by apply andb_prop in Hv as [_ ?].
  - by rewrite lookup_union_r.
Qed.

Lemma refs_ok_step (db db' : DB) :
  refs_ok db →
  (∀ t n, existsb (has_id n) (t_rows (table_of t db)) = true →
          existsb (has_id n) (t_rows (table_of t db')) = true) →
  (∀ t r, r ∈ t_rows (table_of t db') →
          r ∈ t_rows (table_of t db) ∨ row_refs_ok db t r = true) →
  refs_ok db'.
Proof.
  intros H Hids Hrows t. apply Forall_forall. intros r Hr.
  apply (row_refs_ok_mono db); [intros c v; by apply fk_ok_mono|].
  destruct (Hrows t r Hr) as [Hin|Hok]; [|done].
  specialize (H t). rewrite Forall_forall in H. by apply H.
Qed.

Lemma existsb_has_id_merge (i n : Z) (vals : obj) (l : list obj) :
  vals !! "id" = None →
  existsb (has_id n) (merge_at i vals <$> l) = existsb (has_id n) l.
Proof.
  intros H. induction l as [|r l IH]; [done|].
  rewrite fmap_cons. cbn [existsb]. rewrite IH. f_equal.
  unfold merge_at. destruct (has_id i r); [|done]. by apply has_id_union.
Qed.

(** A row that holds [n] in a column that refers to [t] makes row [n] of [t]
    referenced. *)
Lemma referenced_intro (db : DB) (t t' : tbl) (c : column) (r : obj) (n : Z) :
  c ∈ columns t' → c_fk c = Some t → r ∈ t_rows (table_of t' db) →
  r !! c_name c = Some (VInt n) → referenced db t n = true.
Proof.
  intros Hc Hfk Hr Hv. unfold referenced. apply existsb_elem. exists t'. split.
  { unfold all_tables. destruct t'; apply list_elem_of_In; simpl; tauto. }
  apply existsb_elem. exists c. split; [done|].
  apply andb_true_intro. split; [by apply bool_decide_eq_true_2|].
  apply existsb_elem. exists r. split; [done|].
  unfold col_is. by rewrite Hv, Z.eqb_refl.
Qed.

Lemma writes_refs_ok (db db' : DB) : refs_ok db → writes db db' → refs_ok db'.
Proof.
  intros H Hw.
  destruct Hw as [|now t vals ret row db' Hq|t i vals ret row db' Hid Hq
                 |t i n db' Hq].
  - done.
  - unfold sql_insert in Hq. destruct (negb (keys_are_columns _ _)); [done|].
    destruct (negb (existsb _ _)); [|done]. simpl in Hq.
    destruct (constraints_ok _ _ _) eqn:Hc; [|done]. simplify_eq.
    apply (refs_ok_step db); [done|..].
    + intros t' n Hn. destruct (decide (t = t')) as [<-|Hne].
      * rewrite table_of_with_table. simpl. rewrite existsb_app, Hn. done.
      * by rewrite table_of_with_table_ne.
    + intros t' r Hr. destruct (decide (t = t')) as [<-|Hne].
      * rewrite table_of_with_table in Hr. simpl in Hr.
        apply elem_of_app in Hr as [?| ->%list_elem_of_singleton]; [by left|].
        right. by apply constraints_row_refs_ok.
      * rewrite table_of_with_table_ne in Hr by done. by left.
  - unfold sql_update in Hq. destruct (negb _); [done|].
    destruct (filter _ _); [by simplify_eq|].
    destruct (constraints_ok _ _ _) eqn:Hc; [|done]. simplify_eq.
    apply (refs_ok_step db); [done|..].
    + intros t' n Hn. destruct (decide (t = t')) as [<-|Hne].
      * rewrite table_of_with_table. cbn [t_rows].
        by rewrite existsb_has_id_merge.
      * by rewrite table_of_with_table_ne.
    + intros t' r Hr. destruct (decide (t = t')) as [<-|Hne].
      * rewrite table_of_with_table in Hr. simpl in Hr.
        apply list_elem_of_fmap in Hr as (r0 & -> & Hr0). unfold merge_at.
        destruct (has_id i r0); [|by left]. right.
        apply row_refs_ok_union; [done|].
        specialize (H t). rewrite Forall_forall in H. by apply H.
      * rewrite table_of_with_table_ne in Hr by done. by left.
  - unfold sql_delete in Hq. destruct (filter _ _) eqn:Hf; [by simplify_eq|].
    destruct (referenced _ _ _) eqn:Href; [done|]. simplify_eq. clear Hf.
    assert (∀ t' r, r ∈ t_rows (table_of t'
                          (with_table t
                             (Table (filter (λ r, has_id i r = false)
                                       (t_rows (table_of t db)))
                                    (t_seq (table_of t db))) db)) →
                    r ∈ t_rows (table_of t' db)) as Hsub.
    { intros t' r Hr. destruct (decide (t = t')) as [<-|Hne].
      - rewrite table_of_with_table in Hr. simpl in Hr.
        by apply list_elem_of_filter in Hr as [_ ?].
      - by rewrite table_of_with_table_ne in Hr. }
    intros t'. apply Forall_forall. intros r Hr. apply Hsub in Hr.
    pose proof (H t') as Ht'. rewrite Forall_forall in Ht'.
    specialize (Ht' r Hr). unfold row_refs_ok in *.
    rewrite forallb_forall in *. intros c Hc. specialize (Ht' c Hc).
    destruct (r !! c_name c) as [v|] eqn:Hv; [|done]. simpl in *.
    unfold fk_ok in *. destruct (c_fk c) as [t0|] eqn:Hfk; [|done].
    destruct v as [| | m | | |]; try done.
    destruct (decide (t = t0)) as [<-|Hne].
    + rewrite table_of_with_table. simpl.
      apply existsb_elem in Ht' as (r' & Hr' & Hm). apply existsb_elem.
      exists r'. split; [|done]. apply list_elem_of_filter. split; [|done].
      apply (has_id_other i m); [done|]. intros ->.
      apply list_elem_of_In in Hc.
      by rewrite (referenced_intro db t t' c r m Hc Hfk Hr Hv) in Href.
    + by rewrite table_of_with_table_ne.
Qed.

(** X20.  Referential integrity holds under every series of requests: from
    a store where every foreign key is null or names a stored row, no series
    of requests, whatever their outcomes, leads to a store with a row that
    points at a row that is not there. *)
Theorem requests_keep_references (env : Env) (reqs : list request) (db : DB) :
  refs_ok db → refs_ok (run env reqs db).
Proof.
  intros H. apply (run_writes env reqs db refs_ok); [|done].
  intros d d'. apply writes_refs_ok.
Qed.

Ltac refs_ok_closed :=
  let t := fresh "t" in
  intros t; destruct t; refine (bool_decide_unpack _ _); by vm_compute.

Lemma requests_keep_references_witness :
  refs_ok
    (run Examples.env0
       [Request DELETE "artists" (Some 1) ∅ ∅;
        Request DELETE "artists" (Some 2) ∅ ∅;
        Request PUT "users" (Some 1) ∅ {[ "role_id" := VInt 4 ]}]
       Examples.db1).
Proof.
  apply requests_keep_references. refs_ok_closed.
Defined.
